(** * FormBot: the mapping compiler and the fill engine of [gform.py]

    A shallow embedding of [GForm.create_mappings] and [GForm.fill] and the
    properties of them that the specification states.

    - [Py]       Python values the code relies on: exceptions, insertion-ordered
                 dictionaries with [d[k] = v] and [popitem].
    - [Compile]  [create_mappings]: the form data, the X-path strings, the three
                 loops, the in-place default written into each text field.
    - [Session]  the browser session and the console as an environment that
                 answers every call, possibly by raising.
    - [Engine]   [fill]: the assertions, the try/except/finally block and the
                 per-field loops, run against an arbitrary environment. *)

From Stdlib Require Import String Ascii List ZArith Bool Lia.
From Stdlib Require Import PrimFloat Uint63.
Import ListNotations.
Open Scope string_scope.

(* ------------------------------------------------------------------------- *)
(** ** Python values *)

Module Py.

(** The exceptions the two methods can meet.  Every class but
    [KeyboardInterrupt] derives from [Exception]; [OtherException] stands for
    any such class raised by the driver or the console (Selenium's
    TimeoutException, EOFError, ...), with its class name and its [str]. *)
Inductive exn : Type :=
| KeyError (key : string)
| AttributeError (msg : string)
| AssertionError (msg : option string)
| OtherException (cls msg : string)
| KeyboardInterrupt.

(** [isinstance(e, Exception)]: what [except Exception] catches. *)
Definition is_Exception (e : exn) : bool :=
  match e with
  | KeyboardInterrupt => false
  | _ => true
  end.

(** A call either returns a value or raises. *)
Inductive outcome (A : Type) : Type :=
| Returns (a : A)
| Raises (e : exn).
Arguments Returns {A} a.
Arguments Raises {A} e.

(** A [dict] with string keys: the items in insertion order. *)
Definition dict (V : Type) : Type := list (string * V).

Definition keys {V} (d : dict V) : list string := map fst d.

(** [d[k] = v]: an existing key keeps its place and takes the new value, a new
    key goes last. *)
Fixpoint dict_set {V} (d : dict V) (k : string) (v : V) : dict V :=
  match d with
  | [] => [(k, v)]
  | (k', v') :: d' =>
      if String.eqb k' k then (k', v) :: d' else (k', v') :: dict_set d' k v
  end.

(** [d.popitem()]: removes and returns the last item; [None] stands for the
    KeyError of an empty dictionary. *)
Fixpoint popitem {V} (d : dict V) : option (dict V * (string * V)) :=
  match d with
  | [] => None
  | kv :: d' =>
      match popitem d' with
      | None => Some ([], kv)
      | Some (r, last) => Some (kv :: r, last)
      end
  end.

Definition popitem_empty : exn := KeyError "popitem(): dictionary is empty".

(** The double quote character, and [str(x)] of an optional string. *)
Definition dq : string := String (ascii_of_nat 34) EmptyString.

Definition str_opt (o : option string) : string :=
  match o with
  | Some s => s
  | None => "None"
  end.

(** [repr(s)] of a string.  The characters of a string are read as the code
    points below 256.  The string is quoted with single quotes, or with
    double quotes when it holds a single quote and no double quote; the
    backslash and the quote in use are escaped with a backslash; tab, line
    feed and carriage return are written [\t], [\n] and [\r]; the other code
    points that [str.isprintable] refuses (the controls, 127 to 160, and 173)
    are written [\xhh] with two lower-case hexadecimal digits. *)
Definition backslash : ascii := ascii_of_nat 92.
Definition single_quote : ascii := ascii_of_nat 39.
Definition double_quote : ascii := ascii_of_nat 34.

Fixpoint has_char (c : ascii) (s : string) : bool :=
  match s with
  | EmptyString => false
  | String c' s' => Ascii.eqb c' c || has_char c s'
  end.

Definition hex_digit (n : nat) : ascii :=
  ascii_of_nat (if Nat.ltb n 10 then 48 + n else 87 + n).

Definition printable (n : nat) : bool :=
  (Nat.leb 32 n && Nat.ltb n 127) || (Nat.leb 161 n && negb (Nat.eqb n 173)).

Definition repr_char (quote c : ascii) : string :=
  let n := nat_of_ascii c in
  if Ascii.eqb c quote || Ascii.eqb c backslash
  then String backslash (String c EmptyString)
  else if Nat.eqb n 9 then String backslash "t"
  else if Nat.eqb n 10 then String backslash "n"
  else if Nat.eqb n 13 then String backslash "r"
  else if printable n then String c EmptyString
  else String backslash
         (String "x"
            (String (hex_digit (Nat.div n 16))
               (String (hex_digit (Nat.modulo n 16)) EmptyString))).

Fixpoint repr_chars (quote : ascii) (s : string) : string :=
  match s with
  | EmptyString => EmptyString
  | String c s' => repr_char quote c ++ repr_chars quote s'
  end.

Definition repr (s : string) : string :=
  let quote := if has_char single_quote s && negb (has_char double_quote s)
               then double_quote else single_quote in
  String quote (repr_chars quote s ++ String quote EmptyString).

End Py.
Import Py.

(* ------------------------------------------------------------------------- *)
(** ** The mapping compiler: [GForm.create_mappings] *)

Module Compile.

(** *** The form data ([rawdata]) *)

(** One entry of [rawdata['text']]: each key may be absent. *)
Record text_meta : Type := {
  types : option (list string);
  response : option string;
  textarea : option bool
}.

Record radio_meta : Type := {
  choice : option string;
  choice_num : option Z
}.

Record checkbox_meta : Type := {
  choices : option (list string)
}.

(** [rawdata]: the categories are keys of a dictionary too, and so is the
    optional url. *)
Record rawdata : Type := {
  raw_text : option (dict text_meta);
  raw_radio : option (dict radio_meta);
  raw_checkbox : option (dict checkbox_meta);
  raw_url : option string
}.

(** *** The compiled mappings *)

Record Mappings : Type := {
  text : dict string;
  radio : list string;
  checkbox : list string;
  fallbacks : dict string
}.

(** The attributes of a [GForm] object that the two methods read and write.
    [None] is an attribute that was never assigned; [url] holds [None] or a
    string once [create_mappings] ran. *)
Record GForm : Type := {
  mappings : option Mappings;
  url : option (option string);
  WAIT : Z
}.

(** The object that [GForm.__init__] leaves: only [driver] and [WAIT] are
    assigned. *)
Definition init : GForm := {| mappings := None; url := None; WAIT := 5 |}.

(** *** The X-path strings *)

(** [f'@type="{type_}"'] *)
Definition type_test (type_ : string) : string :=
  "@type=" ++ dq ++ type_ ++ dq.

(** [' or '.join([f'@type="{type_}"' for type_ in meta['types']])] *)
Definition text_types (tys : list string) : string :=
  String.concat " or " (map type_test tys).

(** [f'//span[contains(text(), "{question}")]/../../../..//input[{text_types}]'] *)
Definition input_xpath (question : string) (tys : list string) : string :=
  "//span[contains(text(), " ++ dq ++ question ++ dq
    ++ ")]/../../../..//input[" ++ text_types tys ++ "]".

(** [f'//span[contains(text(), "{question}")]/../../../..//textarea'] *)
Definition textarea_xpath (question : string) : string :=
  "//span[contains(text(), " ++ dq ++ question ++ dq
    ++ ")]/../../../..//textarea".

(** [f'{key} | //span[contains(text(), "{question}")]/../../../..//textarea'] *)
Definition union_xpath (key question : string) : string :=
  key ++ " | " ++ textarea_xpath question.

(** [f'//span[contains(text(), "{choice}")]/../../../../..//label'] *)
Definition choice_xpath (choice : string) : string :=
  "//span[contains(text(), " ++ dq ++ choice ++ dq
    ++ ")]/../../../../..//label".

(** *** The text loop (lines 133-146) *)

(** Lines 135-139: the entry of a field that has a ['types'] key. *)
Definition insert_primary (mp : dict string) (question : string)
    (meta : text_meta) : outcome (dict string) :=
  match types meta with
  | Some tys =>
      match response meta with
      | Some resp => Returns (dict_set mp (input_xpath question tys) resp)
      | None => Raises (KeyError "response")
      end
  | None => Returns mp
  end.

(** Lines 141-142: the default is written into the caller's dictionary. *)
Definition default_textarea (exhaustive : bool) (meta : text_meta) : text_meta :=
  match textarea meta with
  | Some _ => meta
  | None =>
      {| types := types meta; response := response meta;
         textarea := Some exhaustive |}
  end.

(** Lines 144-146: the last item of the mapping is taken out and put back
    under the union key. *)
Definition apply_fallback (mp : dict string) (question : string)
    (meta : text_meta) : outcome (dict string) :=
  match textarea meta with
  | Some true =>
      match popitem mp with
      | Some (mp', (key, value)) =>
          Returns (dict_set mp' (union_xpath key question) value)
      | None => Raises popitem_empty
      end
  | _ => Returns mp
  end.

(** One iteration: the field as the iteration leaves it, and the mapping or
    the exception. *)
Definition text_field (exhaustive : bool) (mp : dict string)
    (question : string) (meta : text_meta) : text_meta * outcome (dict string) :=
  match insert_primary mp question meta with
  | Raises e => (meta, Raises e)
  | Returns mp1 =>
      let meta' := default_textarea exhaustive meta in
      (meta', apply_fallback mp1 question meta')
  end.

(** [for question, meta in rawdata['text'].items()]: the fields as the loop
    leaves them (those after a raise are untouched), and the result. *)
Fixpoint text_loop (exhaustive : bool) (mp : dict string)
    (items : dict text_meta) : dict text_meta * outcome (dict string) :=
  match items with
  | [] => ([], Returns mp)
  | (question, meta) :: rest =>
      match text_field exhaustive mp question meta with
      | (meta', Raises e) => ((question, meta') :: rest, Raises e)
      | (meta', Returns mp') =>
          let (rest', r) := text_loop exhaustive mp' rest in
          ((question, meta') :: rest', r)
      end
  end.

(** *** The radio and checkbox loops (lines 148-158) *)

Fixpoint radio_loop (acc : list string) (items : dict radio_meta)
    : outcome (list string) :=
  match items with
  | [] => Returns acc
  | (_, meta) :: rest =>
      match choice meta with
      | Some c => radio_loop (acc ++ [choice_xpath c]) rest
      | None => Raises (KeyError "choice")
      end
  end.

Fixpoint checkbox_loop (acc : list string) (items : dict checkbox_meta)
    : outcome (list string) :=
  match items with
  | [] => Returns acc
  | (_, meta) :: rest =>
      match choices meta with
      | Some cs => checkbox_loop (acc ++ map choice_xpath cs) rest
      | None => Raises (KeyError "choices")
      end
  end.

(** *** [create_mappings] *)

(** What a call leaves behind: the object, the caller's form data, and the
    returned mappings or the exception. *)
Record compiled : Type := {
  self_after : GForm;
  rawdata_after : rawdata;
  result : outcome Mappings
}.

Definition with_text (raw : rawdata) (items : dict text_meta) : rawdata :=
  {| raw_text := Some items; raw_radio := raw_radio raw;
     raw_checkbox := raw_checkbox raw; raw_url := raw_url raw |}.

Definition create_mappings (self : GForm) (raw : rawdata) (exhaustive : bool)
    : compiled :=
  match raw_text raw with
  | None => {| self_after := self; rawdata_after := raw;
               result := Raises (KeyError "text") |}
  | Some items =>
      let (items', r) := text_loop exhaustive [] items in
      let raw' := with_text raw items' in
      let fail e := {| self_after := self; rawdata_after := raw';
                       result := Raises e |} in
      match r with
      | Raises e => fail e
      | Returns t =>
          match raw_radio raw with
          | None => fail (KeyError "radio")
          | Some ritems =>
              match radio_loop [] ritems with
              | Raises e => fail e
              | Returns rd =>
                  match raw_checkbox raw with
                  | None => fail (KeyError "checkbox")
                  | Some citems =>
                      match checkbox_loop [] citems with
                      | Raises e => fail e
                      | Returns cb =>
                          let m := {| text := t; radio := rd; checkbox := cb;
                                      fallbacks := [] |} in
                          {| self_after := {| mappings := Some m;
                                              url := Some (raw_url raw);
                                              WAIT := WAIT self |};
                             rawdata_after := raw';
                             result := Returns m |}
                      end
                  end
              end
          end
      end
  end.

(** *** Shared dictionaries

    [text_loop] gives each label a dictionary of its own.  In Python two
    labels of [rawdata['text']] may hold the same dictionary object, and
    then the default that one iteration writes is read by the other.  Here
    the labels hold references into a store. *)

Definition ref : Type := nat.

Definition store : Type := ref -> text_meta.

Definition write (h : store) (l : ref) (meta : text_meta) : store :=
  fun l' => if Nat.eqb l' l then meta else h l'.

Fixpoint text_loop_shared (exhaustive : bool) (mp : dict string) (h : store)
    (fields : list (string * ref)) : store * outcome (dict string) :=
  match fields with
  | [] => (h, Returns mp)
  | (question, l) :: rest =>
      match text_field exhaustive mp question (h l) with
      | (meta', Raises e) => (write h l meta', Raises e)
      | (meta', Returns mp') =>
          text_loop_shared exhaustive mp' (write h l meta') rest
      end
  end.

(** The fields as a store holds them. *)
Definition deref (h : store) (fields : list (string * ref)) : dict text_meta :=
  map (fun f => (fst f, h (snd f))) fields.

End Compile.
Import Compile.

(* ------------------------------------------------------------------------- *)
(** ** The browser session and the console *)

Module Session.

(** A handle on a [WebElement]. *)
Definition elem : Type := nat.

Inductive level : Type := WARNING | ERROR | CRITICAL.

(** What [fill] asks of the world outside: the driver, an element, the
    console, the clock and the logger. *)
Inductive call : Type :=
| Get (url : string)                          (* driver.get(url) *)
| Sleep (seconds : float)                     (* time.sleep(.5) *)
| Input (prompt : string)                     (* input(prompt) *)
| Time                                        (* time.time() *)
| WaitClickable (timeout : Z) (xpath : string)
    (* WebDriverWait(driver, timeout).until(
         EC.element_to_be_clickable((By.XPATH, xpath))) *)
| Click (el : elem)                           (* el.click() *)
| Clear (el : elem)                           (* el.clear() *)
| SendKeys (el : elem) (value : string)       (* el.send_keys(value) *)
| GetAttribute (el : elem) (name : string)    (* el.get_attribute(name) *)
| IsSelected (el : elem)                      (* el.is_selected() *)
| FindElementById (id : option string)        (* driver.find_element(By.ID, id) *)
| Quit                                        (* driver.quit() *)
| Log (lvl : level) (msg : string).           (* logger.warning / error / fatal *)

Definition ret_type (c : call) : Type :=
  match c with
  | Input _ => string
  | Time => float
  | WaitClickable _ _ | FindElementById _ => elem
  | GetAttribute _ _ => option string
  | IsSelected _ => bool
  | _ => unit
  end.

(** The world: given the calls made so far, the answer to the next one.  Any
    behaviour of the browser, the page and the operator is some [env]. *)
Definition env : Type := list call -> forall c : call, outcome (ret_type c).

(** The X-paths of the waits in a trace, in order: the locate attempts. *)
Fixpoint waits (tr : list call) : list string :=
  match tr with
  | [] => []
  | WaitClickable _ x :: tr' => x :: waits tr'
  | _ :: tr' => waits tr'
  end.

(** The number of [driver.quit()] calls in a trace. *)
Fixpoint quits (tr : list call) : nat :=
  match tr with
  | [] => 0
  | Quit :: tr' => S (quits tr')
  | _ :: tr' => quits tr'
  end.

(** A call that acts on the form: a locate, a click, a keystroke, a read of
    an element.  Navigation, prompts, the clock, the log and quit are not. *)
Definition is_form_action (c : call) : bool :=
  match c with
  | WaitClickable _ _ | Click _ | Clear _ | SendKeys _ _
  | GetAttribute _ _ | IsSelected _ | FindElementById _ => true
  | _ => false
  end.

End Session.
Import Session.

(* ------------------------------------------------------------------------- *)
(** ** The fill engine: [GForm.fill] *)

Module Engine.

(** The value [fill] returns: the int [-1] or a float. *)
Inductive num : Type :=
| Int (z : Z)
| Float (f : float).

(** What a running [fill] carries: the calls made so far and its local [t]. *)
Record frame : Type := {
  trace : list call;
  t : num
}.

(** Statements: from a frame to the frame after, with a value or a raise. *)
Definition M (A : Type) : Type := frame -> frame * outcome A.

Definition ret {A} (a : A) : M A := fun s => (s, Returns a).

Definition raise {A} (e : exn) : M A := fun s => (s, Raises e).

Definition bind {A B} (m : M A) (k : A -> M B) : M B :=
  fun s =>
    match m s with
    | (s', Returns a) => k a s'
    | (s', Raises e) => (s', Raises e)
    end.

Declare Scope py_scope.
Delimit Scope py_scope with py.
Notation "x <- m ;; k" := (bind m (fun x => k))
  (at level 61, m at next level, right associativity) : py_scope.
Notation "m ;; k" := (bind m (fun _ => k))
  (at level 61, right associativity) : py_scope.
Open Scope py_scope.

Definition record (c : call) (s : frame) : frame :=
  {| trace := trace s ++ [c]; t := t s |}.

(** A call that the world answers. *)
Definition perform (E : env) (c : call) : M (ret_type c) :=
  fun s => (record c s, E (trace s) c).

(** A call that only leaves its mark: the logger, and [driver.quit()], which
    the Chrome driver wraps so that it does not raise. *)
Definition tell (c : call) : M unit :=
  fun s => (record c s, Returns tt).

Definition set_t (v : num) : M unit :=
  fun s => ({| trace := trace s; t := v |}, Returns tt).

(** [try: body  except Exception as e: handler(e)] *)
Definition try_except (body : M unit) (handler : exn -> M unit) : M unit :=
  fun s =>
    match body s with
    | (s', Raises e) => if is_Exception e then handler e s' else (s', Raises e)
    | r => r
    end.

(** [for x in l: body(x)] *)
Fixpoint for_each {A} (l : list A) (body : A -> M unit) : M unit :=
  match l with
  | [] => ret tt
  | x :: l' => body x ;; for_each l' body
  end.

(** *** Lines 191-193: the url *)

(** Truth value of [None] or a string. *)
Definition truthy (o : option string) : bool :=
  match o with
  | Some s => negb (String.eqb s EmptyString)
  | None => false
  end.

Definition newline : ascii := ascii_of_nat 10.

(** [.*$] against the rest of the string: no newline, but for a last one. *)
Fixpoint dot_star_end (s : string) : bool :=
  match s with
  | EmptyString => true
  | String c s' =>
      if Ascii.eqb c newline
      then match s' with EmptyString => true | _ => false end
      else dot_star_end s'
  end.

Fixpoint strip_prefix (p s : string) : option string :=
  match p, s with
  | EmptyString, _ => Some s
  | String a p', String b s' => if Ascii.eqb a b then strip_prefix p' s' else None
  | String _ _, EmptyString => None
  end.

(** [re.match(r'^https://.*$', s)] as a truth value. *)
Definition re_match_https (s : string) : bool :=
  match strip_prefix "https://" s with
  | Some rest => dot_star_end rest
  | None => false
  end.

(** The arguments of [fill]. *)
Record fill_args : Type := {
  arg_url : option string;
  submit : bool;
  interactive : bool;
  review_before_submit : bool;
  clear : bool
}.

(** The defaults of the signature. *)
Definition default_args : fill_args :=
  {| arg_url := None; submit := true; interactive := false;
     review_before_submit := false; clear := false |}.

(** Line 191: [self.url = url if url else self.url]. *)
Definition assign_url (self : GForm) (a : fill_args) : outcome GForm :=
  if truthy (arg_url a)
  then Returns {| mappings := mappings self; url := Some (arg_url a);
                  WAIT := WAIT self |}
  else match url self with
       | Some u => Returns self
       | None => Raises (AttributeError "'GForm' object has no attribute 'url'")
       end.

(** Lines 192-193: the two assertions (the interpreter runs them: no [-O]),
    each logging before it raises with the [None] that [logger.fatal]
    returns. *)
Definition check_url (self : GForm) : M string :=
  match url self with
  | Some (Some u) =>
      if truthy (Some u)
      then if re_match_https u then ret u
           else tell (Log CRITICAL "Invalid URL") ;; raise (AssertionError None)
      else tell (Log CRITICAL "URL not provided") ;; raise (AssertionError None)
  | _ => tell (Log CRITICAL "URL not provided") ;; raise (AssertionError None)
  end.

(** *** The prompts and the fixed X-paths *)

Definition start_prompt : string :=
  "Press <Enter> to start filling or q to quit >> ".
Definition review_prompt : string :=
  "Review the form and press <Enter> to submit or 'q' to cancel".
Definition close_prompt : string := "Press <Enter> to close the browser".

Definition clear_xpath : string := "//span[text()=" ++ dq ++ "Clear form" ++ dq ++ "]".
Definition submit_xpath : string := "//span[text()=" ++ dq ++ "Submit" ++ dq ++ "]".

Definition could_not_fill (input_locator : string) : call :=
  Log WARNING ("Could not fill at location: " ++ input_locator).

(** [x == 'q'] and [x == value] for what [input] and [get_attribute] give. *)
Definition is_q (s : string) : bool := String.eqb s "q".

Definition attr_is (got : option string) (value : string) : bool :=
  match got with
  | Some s => String.eqb s value
  | None => false
  end.

Section Run.

Variable E : env.
Variable self : GForm.
Variable a : fill_args.

(** *** Lines 216-257: the three loops *)

(** Lines 217-228.  A failed assertion evaluates its message, which reads
    the attribute once more. *)
Definition fill_text_field (item : string * string) : M unit :=
  let (input_locator, value) := item in
  try_except
    (input_field <- perform E (WaitClickable (WAIT self) input_locator) ;;
     perform E (Clear input_field) ;;
     perform E (SendKeys input_field value) ;;
     got <- perform E (GetAttribute input_field "value") ;;
     if attr_is got value then ret tt
     else
       again <- perform E (GetAttribute input_field "value") ;;
       raise (AssertionError
                (Some ("Value mismatch: " ++ str_opt again ++ " != " ++ value))))
    (fun _ => tell (could_not_fill input_locator)).

(** Lines 232-241. *)
Definition fill_radio_field (input_locator : string) : M unit :=
  try_except
    (input_field <- perform E (WaitClickable (WAIT self) input_locator) ;;
     selected <- perform E (IsSelected input_field) ;;
     if selected then ret tt else perform E (Click input_field))
    (fun _ => tell (could_not_fill input_locator)).

(** Lines 245-257. *)
Definition fill_checkbox_field (input_locator : string) : M unit :=
  try_except
    (input_field <- perform E (WaitClickable (WAIT self) input_locator) ;;
     fr <- perform E (GetAttribute input_field "for") ;;
     box <- perform E (FindElementById fr) ;;
     aria_checked <- perform E (GetAttribute box "aria-checked") ;;
     if attr_is aria_checked "false" then perform E (Click input_field)
     else ret tt)
    (fun _ => tell (could_not_fill input_locator)).

Definition fill_fields (mp : Mappings) : M unit :=
  for_each (text mp) fill_text_field ;;
  for_each (radio mp) fill_radio_field ;;
  for_each (checkbox mp) fill_checkbox_field.

(** *** Lines 262-271: submit *)

Definition handle_submit : M unit :=
  if submit a then
    cancel <- (if review_before_submit a && interactive a
               then answer <- perform E (Input review_prompt) ;;
                    ret (is_q answer)
               else ret false) ;;
    if cancel then ret tt
    else
      submit_button <- perform E (WaitClickable (WAIT self) submit_xpath) ;;
      perform E (Click submit_button)
  else ret tt.

(** *** Lines 197-213: navigation, the first checkpoint, the clear button *)

(** [None]: the operator quit at the first prompt ([return t]); otherwise the
    value of [start]. *)
Definition open_form (u : string) : M (option float) :=
  perform E (Get u) ;;
  (if interactive a then ret tt else perform E (Sleep 0.5%float)) ;;
  cancel <- (if interactive a
             then answer <- perform E (Input start_prompt) ;; ret (is_q answer)
             else ret false) ;;
  if cancel then ret None
  else
    start <- perform E Time ;;
    (if clear a
     then clear_button <- perform E (WaitClickable (WAIT self) clear_xpath) ;;
          perform E (Click clear_button)
     else ret tt) ;;
    ret (Some start).

(** [self.mappings], an AttributeError before [create_mappings] ran. *)
Definition read_mappings : M Mappings :=
  match mappings self with
  | Some mp => ret mp
  | None => raise (AttributeError "'GForm' object has no attribute 'mappings'")
  end.

(** Lines 216-273, entered with [start]. *)
Definition fill_and_submit (start : float) : M unit :=
  mp <- read_mappings ;;
  fill_fields mp ;;
  handle_submit ;;
  now <- perform E Time ;;
  set_t (Float (PrimFloat.sub now start)) ;;
  if interactive a then perform E (Input close_prompt) ;; ret tt else ret tt.

(** The body of the [try] (lines 197-273). *)
Definition try_body (u : string) : M unit :=
  started <- open_form u ;;
  match started with
  | None => ret tt
  | Some start => fill_and_submit start
  end.

(** [str(e)] for the message of line 276: the message of the exception, and
    for a KeyError the [repr] of its key. *)
Definition str_exn (e : exn) : string :=
  match e with
  | KeyError k => repr k
  | AttributeError m => m
  | AssertionError m => str_opt m
  | OtherException _ m => m
  | KeyboardInterrupt => EmptyString
  end.

(** Lines 196-279: [except Exception] logs, [finally] quits and returns [t],
    which also drops whatever the body or the handler raised. *)
Definition guarded (u : string) : M num :=
  fun s =>
    let (s1, _) :=
      try_except (try_body u)
        (fun e => tell (Log ERROR ("An error occurred: " ++ str_exn e))) s in
    let (s2, _) := tell Quit s1 in
    (s2, Returns (t s2)).

End Run.

(** *** [fill] *)

Record filled : Type := {
  self_left : GForm;
  calls : list call;
  returned : outcome num
}.

(** Line 194: [t = -1]. *)
Definition not_completed : num := Int (-1).

(** The frame at line 195: nothing called yet, [t = -1]. *)
Definition at_entry : frame := {| trace := []; t := not_completed |}.

Definition fill (E : env) (self : GForm) (a : fill_args) : filled :=
  match assign_url self a with
  | Raises e => {| self_left := self; calls := []; returned := Raises e |}
  | Returns self1 =>
      let (s, r) := (u <- check_url self1 ;; guarded E self1 a u) at_entry in
      {| self_left := self1; calls := trace s; returned := r |}
  end.

End Engine.
Import Engine.

(* ------------------------------------------------------------------------- *)
(** ** The type tests of an X-path step *)

Module XPath.

(** The predicates that stand between the brackets of [//input[...]]: a test
    of the [type] attribute, or a disjunction. *)
Inductive pred : Type :=
| TypeIs (ty : string)
| Or (p q : pred).

(** The concrete syntax. *)
Fixpoint render (p : pred) : string :=
  match p with
  | TypeIs ty => "@type=" ++ dq ++ ty ++ dq
  | Or p q => render p ++ " or " ++ render q
  end.

(** Whether an element whose [type] attribute is [ty] passes. *)
Fixpoint holds (p : pred) (ty : string) : bool :=
  match p with
  | TypeIs ty' => String.eqb ty ty'
  | Or p q => holds p ty || holds q ty
  end.

(** The disjunction of the type tests of a non-empty list of hints. *)
Fixpoint any_of (ty : string) (tys : list string) : pred :=
  match tys with
  | [] => TypeIs ty
  | ty' :: tys' => Or (TypeIs ty) (any_of ty' tys')
  end.

End XPath.

(* ------------------------------------------------------------------------- *)
(** ** Words used in the statements *)

Module Words.

(** [s] starts with [p]; [x] occurs in [s]. *)
Definition starts_with (p s : string) : Prop := exists r, s = p ++ r.

Definition occurs_in (x s : string) : Prop := exists l r, s = l ++ x ++ r.

(** A label without a double quote in it. *)
Fixpoint quote_free (s : string) : bool :=
  match s with
  | EmptyString => true
  | String c s' => negb (Ascii.eqb c (ascii_of_nat 34)) && quote_free s'
  end.

(** The items of a category, none when the category is absent. *)
Definition items {V} (o : option (dict V)) : dict V :=
  match o with
  | Some d => d
  | None => []
  end.

(** The flag that line 144 tests: the field's own, else the switch. *)
Definition effective (exhaustive : bool) (meta : text_meta) : bool :=
  match textarea meta with
  | Some b => b
  | None => exhaustive
  end.

(** A field declaration that [create_mappings] looks up a key of without
    finding it: a text field with ['types'] and no ['response'], a radio
    field with no ['choice'], a checkbox field with no ['choices']. *)
Definition lacks_looked_up_key (raw : rawdata) : Prop :=
  (exists q m, In (q, m) (items (raw_text raw))
               /\ types m <> None /\ response m = None)
  \/ (exists q m, In (q, m) (items (raw_radio raw)) /\ choice m = None)
  \/ (exists q m, In (q, m) (items (raw_checkbox raw)) /\ choices m = None).

(** What one call of [create_mappings] may change in a text field: nothing,
    or a ['textarea'] key that was absent now holds the switch. *)
Definition defaulted (exhaustive : bool) (before after : string * text_meta)
    : Prop :=
  fst after = fst before
  /\ types (snd after) = types (snd before)
  /\ response (snd after) = response (snd before)
  /\ (textarea (snd after) = textarea (snd before)
      \/ (textarea (snd before) = None
          /\ textarea (snd after) = Some exhaustive)).

(** The entry that a text field with both keys compiles to. *)
Definition compiled_entry (exhaustive : bool) (item : string * text_meta)
    : option (string * string) :=
  match types (snd item), response (snd item) with
  | Some tys, Some resp =>
      Some (if effective exhaustive (snd item)
            then union_xpath (input_xpath (fst item) tys) (fst item)
            else input_xpath (fst item) tys,
            resp)
  | _, _ => None
  end.

(** Every dictionary of the store [h'] is the one of [h], or that one with
    the default written in. *)
Definition defaults_of (exhaustive : bool) (h h' : store) : Prop :=
  forall l, h' l = h l \/ h' l = default_textarea exhaustive (h l).

(** An entry of the text mapping comes from a field: the key starts with the
    field's input X-path, the value is the field's response. *)
Definition comes_from (fields : dict text_meta) (entry : string * string)
    : Prop :=
  exists q m tys,
    In (q, m) fields /\ types m = Some tys
    /\ response m = Some (snd entry)
    /\ starts_with (input_xpath q tys) (fst entry).

(** Some key of the mapping starts with [p]. *)
Definition has_key_from (p : string) (mp : dict string) : Prop :=
  exists k v, In (k, v) mp /\ starts_with p k.

(** The locators that a text field can compile to: its input X-path (line
    139) and the union of line 146; none without ['types']. *)
Definition locators (f : string * text_meta) : list string :=
  match types (snd f) with
  | Some tys =>
      [input_xpath (fst f) tys; union_xpath (input_xpath (fst f) tys) (fst f)]
  | None => []
  end.

(** The key opens with the span test of the label [q]. *)
Definition labelled (q k : string) : Prop :=
  starts_with ("//span[contains(text(), " ++ dq ++ q ++ dq) k.

(** The object and the url with which [fill] enters its [try] block, when
    lines 191-193 raise nothing: the url is there, it is not empty and it
    matches the pattern. *)
Definition passes_assertions (self : GForm) (a : fill_args)
    : option (GForm * string) :=
  match assign_url self a with
  | Returns self1 =>
      match url self1 with
      | Some (Some u) =>
          if truthy (Some u) && re_match_https u then Some (self1, u) else None
      | _ => None
      end
  | Raises _ => None
  end.

(** A statement that adds only calls that satisfy [P]. *)
Definition adds_only (P : call -> bool) {A} (m : M A) : Prop :=
  forall s, exists tr,
    trace (fst (m s)) = (trace s ++ tr)%list /\ forallb P tr = true.

Definition is_not_quit (c : call) : bool :=
  match c with
  | Quit => false
  | _ => true
  end.

(** A statement that returns, leaves [t] alone and locates exactly [xs]. *)
Definition locates (xs : list string) (m : M unit) : Prop :=
  forall s, exists tr,
    m s = ({| trace := (trace s ++ tr)%list; t := t s |}, Returns tt)
    /\ waits tr = xs.

(** A statement that, however it ends, locates exactly [xs]. *)
Definition attempts (xs : list string) {A} (m : M A) : Prop :=
  forall s, exists tr,
    trace (fst (m s)) = (trace s ++ tr)%list /\ waits tr = xs.

(** The world raises nothing but instances of [Exception]. *)
Definition only_Exceptions (E : env) : Prop :=
  forall h c e, E h c = Raises e -> is_Exception e = true.

(** The operator does not answer [q] at the review prompt. *)
Definition confirms_review (E : env) : Prop :=
  forall h, exists answer,
    E h (Input review_prompt) = Returns answer /\ is_q answer = false.

End Words.
Import Words.

(* ------------------------------------------------------------------------- *)
(** ** Example inputs *)

Module Examples.

(** The form data of [main.py], cut to its first two text fields. *)
Definition form_data : rawdata :=
  {| raw_text := Some
       [("Email", {| types := Some ["text"; "email"];
                     response := Some "alex.johnson@example.com";
                     textarea := None |});
        ("Full Name", {| types := Some ["text"];
                         response := Some "Alex Johnson";
                         textarea := None |})];
     raw_radio := Some
       [("Ticket Type", {| choice := Some "Standard";
                           choice_num := Some 1%Z |})];
     raw_checkbox := Some
       [("Preferred Sessions",
         {| choices := Some ["AI in Healthcare"; "Quantum Computing 101"] |})];
     raw_url := None |}.

(** What [create_mappings] returns for it with the switch off. *)
Definition form_data_mappings : Mappings :=
  {| text := [(input_xpath "Email" ["text"; "email"],
               "alex.johnson@example.com");
              (input_xpath "Full Name" ["text"], "Alex Johnson")];
     radio := [choice_xpath "Standard"];
     checkbox := [choice_xpath "AI in Healthcare";
                  choice_xpath "Quantum Computing 101"];
     fallbacks := [] |}.

(** What it returns with the switch on. *)
Definition form_data_mappings_exhaustive : Mappings :=
  {| text := [(union_xpath (input_xpath "Email" ["text"; "email"]) "Email",
               "alex.johnson@example.com");
              (union_xpath (input_xpath "Full Name" ["text"]) "Full Name",
               "Alex Johnson")];
     radio := [choice_xpath "Standard"];
     checkbox := [choice_xpath "AI in Healthcare";
                  choice_xpath "Quantum Computing 101"];
     fallbacks := [] |}.

(** A world for the examples.  Navigation does as [nav] says; the operator
    types [at_start] and [at_review] at the two prompts; the X-paths in
    [missing] never become clickable; an element's value is what was last
    typed; every checkbox reads unchecked and no radio is selected. *)
Fixpoint last_typed (h : list call) : option string :=
  match h with
  | [] => None
  | SendKeys _ value :: h' =>
      match last_typed h' with
      | Some later => Some later
      | None => Some value
      end
  | _ :: h' => last_typed h'
  end.

Definition world (nav : outcome unit) (at_start at_review : string)
    (missing : list string) : env :=
  fun h c =>
    match c return outcome (ret_type c) with
    | Get _ => nav
    | Input prompt =>
        Returns (if String.eqb prompt start_prompt then at_start
                 else if String.eqb prompt review_prompt then at_review
                 else EmptyString)
    | Time => Returns (PrimFloat.of_uint63 (Uint63.of_nat (length h)))
    | WaitClickable _ xpath =>
        if existsb (String.eqb xpath) missing
        then Raises (OtherException "TimeoutException" "Message: ")
        else Returns 0
    | FindElementById _ => Returns 1
    | GetAttribute _ name =>
        Returns (if String.eqb name "value" then last_typed h
                 else if String.eqb name "for" then Some "i5"
                 else Some "false")
    | IsSelected _ => Returns false
    | _ => Returns tt
    end.

(** Three text fields, each with its ['types'] and its ['response'].  The
    hint of the first and the label of the third hold double quotes, so that
    the two fields, whose labels differ, have one and the same input
    X-path. *)
Definition colliding_fields : rawdata :=
  {| raw_text := Some
       [("a", {| types := Some ["b" ++ dq ++ ")]/../../../..//input[@type="
                                  ++ dq ++ "c"];
                 response := Some "first"; textarea := Some false |});
        ("Name", {| types := Some ["text"];
                    response := Some "second"; textarea := None |});
        ("a" ++ dq ++ ")]/../../../..//input[@type=" ++ dq ++ "b",
         {| types := Some ["c"];
            response := Some "third"; textarea := None |})];
     raw_radio := Some [];
     raw_checkbox := Some [];
     raw_url := None |}.

(** A text field that has no key at all. *)
Definition bare_field : rawdata :=
  {| raw_text := Some
       [("Name", {| types := None; response := None; textarea := None |})];
     raw_radio := Some [];
     raw_checkbox := Some [];
     raw_url := None |}.

End Examples.

(* ------------------------------------------------------------------------- *)
(** ** The script: [main.py] *)

Module Script.

(** [INFO] *)
Definition name : string := "Alex Johnson".
Definition email : string := "alex.johnson@example.com".
Definition id : string := "REG-2025-001".
Definition organization : string := "Tech Research Labs".
Definition ticket_type : string * Z := ("Standard", 1%Z).
Definition registration_id : string := "CONF-2025-STD-001".
Definition sessions : list string :=
  ["AI in Healthcare"; "Cloud Computing Trends"; "Quantum Computing 101";
   "Data Privacy and Ethics"].

Definition text_only (tys : list string) (resp : string) : text_meta :=
  {| types := Some tys; response := Some resp; textarea := None |}.

(** [form_data] *)
Definition form_data : rawdata :=
  {| raw_text := Some
       [("Email", text_only ["text"; "email"] email);
        ("Full Name", text_only ["text"] name);
        ("Registration ID", text_only ["text"] id);
        ("Organization", text_only ["text"] organization);
        ("Ticket Reference", text_only ["text"] registration_id)];
     raw_checkbox := Some
       [("Preferred Sessions",
         {| choices := Some [nth 0 sessions EmptyString;
                             nth 2 sessions EmptyString] |})];
     raw_radio := Some
       [("Ticket Type", {| choice := Some (fst ticket_type);
                           choice_num := Some (snd ticket_type) |})];
     raw_url := None |}.

Definition form_url : string := "https://forms.gle/z6wBJuZgUuUfbvzV7".

(** [gform.fill(url=..., submit=True)] *)
Definition args : fill_args :=
  {| arg_url := Some form_url; submit := true; interactive := false;
     review_before_submit := false; clear := false |}.

(** [t != -1], the int against an int or a float. *)
Definition is_not_minus_one (v : num) : bool :=
  match v with
  | Int z => negb (Z.eqb z (-1))
  | Float f => negb (PrimFloat.eqb f (-1)%float)
  end.

(** What a run of the script shows: the calls of [fill] and the line that
    [logger.info] prints, if any. *)
Record ran : Type := {
  session : list call;
  info : option string
}.

(** [GForm()]: [__init__] starts Chrome (line 63), which may raise, and the
    exception leaves the constructor; when Chrome starts, the object has its
    driver and its [WAIT]. *)
Definition construct (chrome : outcome unit) : outcome GForm :=
  match chrome with
  | Returns _ => Returns init
  | Raises e => Raises e
  end.

Section Main.

(** [f"{t:.2f}"] *)
Variable two_decimals : num -> string.

(** The script, given what the start of Chrome does and the world that
    [fill] then meets. *)
Definition main (chrome : outcome unit) (E : env) : outcome ran :=
  match construct chrome with
  | Raises e => Raises e
  | Returns gform =>
      let compiled := create_mappings gform form_data false in
      match result compiled with
      | Raises e => Raises e
      | Returns _ =>
          let filled := fill E (Compile.self_after compiled) args in
          match returned filled with
          | Raises e => Raises e
          | Returns t =>
              Returns {| session := calls filled;
                         info := if is_not_minus_one t
                                 then Some ("Time taken: " ++ two_decimals t
                                              ++ " seconds")
                                 else None |}
          end
      end
  end.

End Main.

End Script.

(* ------------------------------------------------------------------------- *)
(** ** More example inputs *)

Module Samples.

(** What [create_mappings] returns for the form data of [main.py]. *)
Definition script_mappings : Mappings :=
  {| text := [(input_xpath "Email" ["text"; "email"], Script.email);
              (input_xpath "Full Name" ["text"], Script.name);
              (input_xpath "Registration ID" ["text"], Script.id);
              (input_xpath "Organization" ["text"], Script.organization);
              (input_xpath "Ticket Reference" ["text"],
               Script.registration_id)];
     radio := [choice_xpath "Standard"];
     checkbox := [choice_xpath "AI in Healthcare";
                  choice_xpath "Quantum Computing 101"];
     fallbacks := [] |}.

(** Two text fields with a flag of their own: a long answer that asks for
    the textarea, a short one that refuses it. *)
Definition own_flags : rawdata :=
  {| raw_text := Some
       [("Bio", {| types := Some ["text"]; response := Some "I write proofs.";
                   textarea := Some true |});
        ("Email", {| types := Some ["text"; "email"];
                     response := Some Script.email;
                     textarea := Some false |})];
     raw_radio := Some [];
     raw_checkbox := Some [];
     raw_url := Some "https://forms.gle/z6wBJuZgUuUfbvzV7" |}.

Definition own_flags_mappings : Mappings :=
  {| text := [(union_xpath (input_xpath "Bio" ["text"]) "Bio",
               "I write proofs.");
              (input_xpath "Email" ["text"; "email"], Script.email)];
     radio := [];
     checkbox := [];
     fallbacks := [] |}.

End Samples.

(* ------------------------------------------------------------------------- *)
(** ** More words for the statements *)

Module Vocabulary.

(** A string without a line feed. *)
Fixpoint no_newline (s : string) : bool :=
  match s with
  | EmptyString => true
  | String c s' => negb (Ascii.eqb c newline) && no_newline s'
  end.

(** A form data with its three categories and, in every field, the keys that
    the loops look up. *)
Definition has_all_keys (raw : rawdata) : Prop :=
  (exists fields, raw_text raw = Some fields
     /\ Forall (fun f => types (snd f) <> None /\ response (snd f) <> None)
          fields)
  /\ (exists fields, raw_radio raw = Some fields
        /\ Forall (fun f => choice (snd f) <> None) fields)
  /\ (exists fields, raw_checkbox raw = Some fields
        /\ Forall (fun f => choices (snd f) <> None) fields).

(** The fields that line 135 lets in. *)
Definition with_types (fields : dict text_meta) : dict text_meta :=
  filter (fun f => match types (snd f) with Some _ => true | None => false end)
    fields.

(** A statement that leaves the local [t] alone. *)
Definition keeps_t {A} (m : M A) : Prop :=
  forall s, t (fst (m s)) = t s.

(** The calls a mode does without: no prompt when not interactive, no pause
    when interactive. *)
Definition fits_mode (interactive : bool) (c : call) : bool :=
  match c with
  | Input _ => interactive
  | Sleep _ => negb interactive
  | _ => true
  end.

(** A wait with the timeout of the object for one of the given X-paths, or
    any other call. *)
Definition waits_within (timeout : Z) (xpaths : list string) (c : call)
    : bool :=
  match c with
  | WaitClickable w x => Z.eqb w timeout && existsb (String.eqb x) xpaths
  | _ => true
  end.

(** Keys typed are among the given values. *)
Definition types_within (values : list string) (c : call) : bool :=
  match c with
  | SendKeys _ v => existsb (String.eqb v) values
  | _ => true
  end.

(** The X-paths that [fill] may wait for. *)
Definition known_xpaths (a : fill_args) (mp : option Mappings) : list string :=
  ((if clear a then [clear_xpath] else [])
     ++ match mp with
        | Some m => keys (text m) ++ radio m ++ checkbox m
        | None => []
        end
     ++ (if submit a then [submit_xpath] else []))%list.

End Vocabulary.
Import Vocabulary.

(* ========================================================================= *)
(** * Properties *)

(** ** Strings and dictionaries *)

Section Strings.

Lemma append_assoc (a b c : string) : (a ++ b) ++ c = a ++ (b ++ c).
Proof.
  induction a as [|x a IH]; simpl; [reflexivity | now rewrite IH].
Qed.

Lemma append_inv_head (a b c : string) : a ++ b = a ++ c -> b = c.
Proof.
  induction a as [|x a IH]; simpl; intros H; [assumption|].
  injection H as H. auto.
Qed.

Lemma length_append (a b : string) :
  String.length (a ++ b) = String.length a + String.length b.
Proof.
  induction a as [|x a IH]; simpl; [reflexivity | now rewrite IH].
Qed.

Lemma append_empty (s : string) : s ++ EmptyString = s.
Proof.
  induction s as [|x s IH]; simpl; [reflexivity | now rewrite IH].
Qed.

Lemma starts_with_refl (s : string) : starts_with s s.
Proof.
  exists EmptyString. now rewrite append_empty.
Qed.

Lemma starts_with_append (p s r : string) :
  starts_with p s -> starts_with p (s ++ r).
Proof.
  intros [r0 ->]. exists (r0 ++ r). apply append_assoc.
Qed.

Lemma starts_with_trans (p q s : string) :
  starts_with p q -> starts_with q s -> starts_with p s.
Proof.
  intros [r1 ->] [r2 ->]. exists (r1 ++ r2). apply append_assoc.
Qed.

Lemma occurs_in_starts_with (x p s : string) :
  occurs_in x p -> starts_with p s -> occurs_in x s.
Proof.
  intros [l [r ->]] [r' ->]. exists l, (r ++ r').
  now rewrite !append_assoc.
Qed.

(** Two strings that open with quote-free words closed by a quote open with
    the same word. *)
Lemma quoted_word_inj (q q' r r' : string) :
  quote_free q = true -> quote_free q' = true ->
  q ++ dq ++ r = q' ++ dq ++ r' -> q = q'.
Proof.
  revert q'. induction q as [|x q IH]; intros [|y q'] Hq Hq' H; simpl in *.
  - reflexivity.
  - injection H as Hc _. subst y.
    apply andb_prop in Hq' as [Hy _]. discriminate Hy.
  - injection H as Hc _. subst x.
    apply andb_prop in Hq as [Hx _]. discriminate Hx.
  - injection H as -> H.
    apply andb_prop in Hq as [_ Hq]. apply andb_prop in Hq' as [_ Hq'].
    f_equal. eauto.
Qed.

End Strings.

(** [repr] on keys of each kind: plain, with a quote of one kind, with both,
    with a line feed, with another control character. *)
Lemma repr_examples :
  repr "response" = "'response'"
  /\ repr "it's" = dq ++ "it's" ++ dq
  /\ repr ("say " ++ dq ++ "hi" ++ dq) = "'say " ++ dq ++ "hi" ++ dq ++ "'"
  /\ repr ("it's " ++ dq) = "'it" ++ String backslash "'s " ++ dq ++ "'"
  /\ repr (String (ascii_of_nat 10) EmptyString)
     = "'" ++ String backslash "n'"
  /\ repr (String (ascii_of_nat 27) "[0m")
     = "'" ++ String backslash "x1b[0m'".
Proof. repeat split; reflexivity. Qed.

(** [str(e)] of a KeyError is the [repr] of the key, quotes included; of the
    other exceptions, the message. *)
Lemma str_exn_examples :
  str_exn (KeyError "response") = "'response'"
  /\ str_exn (KeyError "it's") = dq ++ "it's" ++ dq
  /\ str_exn popitem_empty = "'popitem(): dictionary is empty'"
  /\ str_exn (AssertionError None) = "None"
  /\ str_exn (OtherException "TimeoutException" "Message: ") = "Message: ".
Proof. repeat split; reflexivity. Qed.

Section Dictionaries.

Context {V : Type}.

Lemma popitem_last (d : dict V) (kv : string * V) :
  popitem (d ++ [kv])%list = Some (d, kv).
Proof.
  induction d as [|x d IH]; simpl; [reflexivity | now rewrite IH].
Qed.

Lemma popitem_none (d : dict V) : popitem d = None -> d = [].
Proof.
  destruct d as [|x d]; simpl; [reflexivity|].
  destruct (popitem d) as [[r l]|]; discriminate.
Qed.

Lemma popitem_some (d d' : dict V) (kv : string * V) :
  popitem d = Some (d', kv) -> d = (d' ++ [kv])%list.
Proof.
  revert d'. induction d as [|x d IH]; simpl; intros d' H; [discriminate|].
  destruct (popitem d) as [[r l]|] eqn:E.
  - injection H as <- <-. simpl. f_equal. now apply IH.
  - injection H as <- <-. apply popitem_none in E. now subst d.
Qed.

Lemma dict_set_fresh (d : dict V) (k : string) (v : V) :
  ~ In k (keys d) -> dict_set d k v = (d ++ [(k, v)])%list.
Proof.
  induction d as [|[k' v'] d IH]; simpl; intros H; [reflexivity|].
  destruct (String.eqb_spec k' k) as [->|Hne].
  - exfalso. apply H. now left.
  - f_equal. apply IH. intros Hin. apply H. now right.
Qed.

(** After [d[k] = v] the items are the old ones, but for the value of [k]. *)
Lemma in_dict_set (d : dict V) (k : string) (v : V) (kv : string * V) :
  In kv (dict_set d k v) -> kv = (k, v) \/ In kv d.
Proof.
  induction d as [|[k' v'] d IH]; simpl.
  - intros [<-|[]]. now left.
  - destruct (String.eqb_spec k' k) as [->|Hne]; simpl.
    + intros [<-|H]; [now left | right; now right].
    + intros [<-|H]; [right; now left|].
      destruct (IH H) as [->|H']; [now left | right; now right].
Qed.

Lemma dict_set_has_key (d : dict V) (k : string) (v : V) :
  In (k, v) (dict_set d k v).
Proof.
  induction d as [|[k' v'] d IH]; simpl; [now left|].
  destruct (String.eqb_spec k' k) as [->|Hne]; simpl; [now left | now right].
Qed.

Lemma dict_set_keeps_keys (d : dict V) (k k0 : string) (v : V) :
  In k0 (keys d) -> In k0 (keys (dict_set d k v)).
Proof.
  unfold keys. induction d as [|[k' v'] d IH]; simpl; [intros []|].
  destruct (String.eqb_spec k' k) as [->|Hne]; simpl; intros [<-|H]; auto.
Qed.

End Dictionaries.

(** ** The compiler: what raises, and what a raise leaves *)

Section Rejection.

Variable exhaustive : bool.

Lemma text_field_raises mp q m m' e :
  text_field exhaustive mp q m = (m', Raises e) -> exists k, e = KeyError k.
Proof.
  unfold text_field, insert_primary, apply_fallback, popitem_empty.
  destruct (types m) as [tys|]; [destruct (response m) as [resp|]|].
  - destruct (textarea (default_textarea exhaustive m)) as [[|]|];
      try discriminate.
    destruct (popitem _) as [[mp' [k v]]|]; [discriminate|].
    intros H. injection H as _ <-. eauto.
  - intros H. injection H as _ <-. eauto.
  - destruct (textarea (default_textarea exhaustive m)) as [[|]|];
      try discriminate.
    destruct (popitem _) as [[mp' [k v]]|]; [discriminate|].
    intros H. injection H as _ <-. eauto.
Qed.

Lemma text_loop_raises fields : forall mp fields' e,
  text_loop exhaustive mp fields = (fields', Raises e) ->
  exists k, e = KeyError k.
Proof.
  induction fields as [|[q m] rest IH]; simpl; intros mp fields' e H.
  - discriminate.
  - destruct (text_field exhaustive mp q m) as [m' [mp'|e']] eqn:F.
    + destruct (text_loop exhaustive mp' rest) as [rest' r] eqn:L.
      injection H as _ ->. eauto.
    + injection H as _ <-. eauto using text_field_raises.
Qed.

Lemma radio_loop_raises fields : forall acc e,
  radio_loop acc fields = Raises e -> e = KeyError "choice".
Proof.
  induction fields as [|[q m] rest IH]; simpl; intros acc e H.
  - discriminate.
  - destruct (choice m); [eauto | now injection H].
Qed.

Lemma checkbox_loop_raises fields : forall acc e,
  checkbox_loop acc fields = Raises e -> e = KeyError "choices".
Proof.
  induction fields as [|[q m] rest IH]; simpl; intros acc e H.
  - discriminate.
  - destruct (choices m); [eauto | now injection H].
Qed.

(** A text field with ['types'] and no ['response'] stops the loop, if
    nothing stopped it before. *)
Lemma text_loop_missing_response fields q m :
  In (q, m) fields -> types m <> None -> response m = None ->
  forall mp, exists e, snd (text_loop exhaustive mp fields) = Raises e.
Proof.
  intros Hin Hty Hre.
  induction fields as [|[q0 m0] rest IH]; simpl; intros mp; [destruct Hin|].
  destruct (text_field exhaustive mp q0 m0) as [m' [mp'|e']] eqn:F.
  - destruct Hin as [Heq|Hin].
    + injection Heq as -> ->. unfold text_field, insert_primary in F.
      rewrite Hre in F. destruct (types m); [discriminate | contradiction].
    + destruct (IH Hin mp') as [e He].
      destruct (text_loop exhaustive mp' rest) as [rest' r]. simpl in *. eauto.
  - simpl. eauto.
Qed.

Lemma radio_loop_missing_choice fields q m :
  In (q, m) fields -> choice m = None ->
  forall acc, exists e, radio_loop acc fields = Raises e.
Proof.
  intros Hin Hc.
  induction fields as [|[q0 m0] rest IH]; simpl; intros acc; [destruct Hin|].
  destruct (choice m0) as [c|] eqn:C; [|eauto].
  destruct Hin as [Heq|Hin]; [|eauto].
  injection Heq as -> ->. congruence.
Qed.

Lemma checkbox_loop_missing_choices fields q m :
  In (q, m) fields -> choices m = None ->
  forall acc, exists e, checkbox_loop acc fields = Raises e.
Proof.
  intros Hin Hc.
  induction fields as [|[q0 m0] rest IH]; simpl; intros acc; [destruct Hin|].
  destruct (choices m0) as [c|] eqn:C; [|eauto].
  destruct Hin as [Heq|Hin]; [|eauto].
  injection Heq as -> ->. congruence.
Qed.

(** Whatever [create_mappings] raises is a KeyError, and then neither
    [self.mappings] nor [self.url] was assigned. *)
Lemma create_mappings_raises self raw e :
  result (create_mappings self raw exhaustive) = Raises e ->
  (exists k, e = KeyError k)
  /\ Compile.self_after (create_mappings self raw exhaustive) = self.
Proof.
  unfold create_mappings.
  destruct (raw_text raw) as [fields|]; simpl;
    [|intros H; injection H as <-; eauto].
  destruct (text_loop exhaustive [] fields) as [fields' [t|e']] eqn:L; simpl;
    [|intros H; injection H as <-; eauto using text_loop_raises].
  destruct (raw_radio raw) as [rfields|]; simpl;
    [|intros H; injection H as <-; eauto].
  destruct (radio_loop [] rfields) as [rd|e'] eqn:R; simpl;
    [|intros H; injection H as <-; apply radio_loop_raises in R; subst; eauto].
  destruct (raw_checkbox raw) as [cfields|]; simpl;
    [|intros H; injection H as <-; eauto].
  destruct (checkbox_loop [] cfields) as [cb|e'] eqn:C; simpl;
    [discriminate|].
  intros H; injection H as <-; apply checkbox_loop_raises in C; subst; eauto.
Qed.

Lemma create_mappings_rejects self raw :
  lacks_looked_up_key raw ->
  exists e, result (create_mappings self raw exhaustive) = Raises e.
Proof.
  unfold create_mappings, lacks_looked_up_key, items.
  intros H.
  destruct (raw_text raw) as [fields|]; simpl; [|eauto].
  destruct (text_loop exhaustive [] fields) as [fields' [t|e']] eqn:L; simpl;
    [|eauto].
  destruct (raw_radio raw) as [rfields|]; simpl; [|eauto].
  destruct (radio_loop [] rfields) as [rd|e'] eqn:R; simpl; [|eauto].
  destruct (raw_checkbox raw) as [cfields|]; simpl; [|eauto].
  destruct (checkbox_loop [] cfields) as [cb|e'] eqn:C; simpl; [|eauto].
  exfalso.
  destruct H as [(q & m & Hin & Hty & Hre)|[(q & m & Hin & Hc)|(q & m & Hin & Hc)]].
  - destruct (text_loop_missing_response _ _ _ Hin Hty Hre []) as [e He].
    rewrite L in He. discriminate.
  - destruct (radio_loop_missing_choice _ _ _ Hin Hc []) as [e He]. congruence.
  - destruct (checkbox_loop_missing_choices _ _ _ Hin Hc []) as [e He].
    congruence.
Qed.

End Rejection.

(** C1, as the code has it.  A form data in which a text field has ['types']
    but no ['response'], or a radio field has no ['choice'], or a checkbox
    field has no ['choices'], is rejected as a whole: [create_mappings] raises
    a KeyError (the code has no SchemaError), returns no mappings and leaves
    [self.mappings] and [self.url] as they were. *)
Theorem missing_key_raises_KeyError (self : GForm) (raw : rawdata)
    (exhaustive : bool) :
  lacks_looked_up_key raw ->
  exists k,
    result (create_mappings self raw exhaustive) = Raises (KeyError k)
    /\ Compile.self_after (create_mappings self raw exhaustive) = self.
Proof.
  intros H.
  destruct (create_mappings_rejects exhaustive self raw H) as [e He].
  destruct (create_mappings_raises _ _ _ _ He) as [[k ->] Hs].
  exists k. split; assumption.
Qed.

Lemma missing_key_raises_KeyError_witness :
  exists k,
    result (create_mappings init
              {| raw_text := Some [("Name", {| types := Some ["text"];
                                              response := None;
                                              textarea := None |})];
                 raw_radio := Some []; raw_checkbox := Some [];
                 raw_url := None |} false) = Raises (KeyError k)
    /\ Compile.self_after
         (create_mappings init
              {| raw_text := Some [("Name", {| types := Some ["text"];
                                              response := None;
                                              textarea := None |})];
                 raw_radio := Some []; raw_checkbox := Some [];
                 raw_url := None |} false) = init.
Proof.
  apply missing_key_raises_KeyError.
  left. exists "Name", {| types := Some ["text"]; response := None;
                          textarea := None |}.
  simpl. split; [now left | split; [discriminate | reflexivity]].
Defined.

(** C1 as stated fails: a text field with neither ['types'] nor ['response']
    lacks its response value, and with the switch off [create_mappings]
    returns mappings that leave the field out. *)
Lemma bare_text_field_is_omitted :
  (exists q m, In (q, m) (items (raw_text Examples.bare_field))
               /\ response m = None)
  /\ result (create_mappings init Examples.bare_field false)
     = Returns {| text := []; radio := []; checkbox := []; fallbacks := [] |}.
Proof.
  split; [|reflexivity].
  exists "Name", {| types := None; response := None; textarea := None |}.
  split; [now left | reflexivity].
Qed.

(** ** The compiler and the caller's form data *)

Section FormData.

Variable exhaustive : bool.

Lemma default_textarea_defaulted q m :
  defaulted exhaustive (q, m) (q, default_textarea exhaustive m).
Proof.
  unfold defaulted, default_textarea; simpl.
  destruct (textarea m) eqn:T; simpl; auto 6.
Qed.

Lemma defaulted_refl f : defaulted exhaustive f f.
Proof. unfold defaulted; auto. Qed.

Lemma text_field_meta mp q m :
  fst (text_field exhaustive mp q m) = m
  \/ fst (text_field exhaustive mp q m) = default_textarea exhaustive m.
Proof.
  unfold text_field. destruct (insert_primary mp q m); simpl; auto.
Qed.

Lemma text_field_returns_meta mp q m m' mp' :
  text_field exhaustive mp q m = (m', Returns mp') ->
  m' = default_textarea exhaustive m.
Proof.
  unfold text_field. destruct (insert_primary mp q m); [|discriminate].
  intros H. now injection H as <- _.
Qed.

Lemma text_loop_defaulted fields : forall mp,
  Forall2 (defaulted exhaustive) fields
    (fst (text_loop exhaustive mp fields)).
Proof.
  induction fields as [|[q m] rest IH]; simpl; intros mp; [constructor|].
  pose proof (text_field_meta mp q m) as Hm.
  destruct (text_field exhaustive mp q m) as [m' [mp'|e]] eqn:F; simpl in Hm.
  - specialize (IH mp').
    destruct (text_loop exhaustive mp' rest) as [rest' r]; simpl in *.
    constructor; [|assumption].
    destruct Hm as [->| ->];
      [apply defaulted_refl | apply default_textarea_defaulted].
  - simpl. constructor.
    + destruct Hm as [->| ->];
        [apply defaulted_refl | apply default_textarea_defaulted].
    + clear. induction rest; constructor; auto using defaulted_refl.
Qed.

Lemma text_loop_returns_fields fields : forall mp fields' mp',
  text_loop exhaustive mp fields = (fields', Returns mp') ->
  fields' = map (fun f => (fst f, default_textarea exhaustive (snd f))) fields.
Proof.
  induction fields as [|[q m] rest IH]; simpl; intros mp fields' mp' H.
  - now injection H as <- _.
  - destruct (text_field exhaustive mp q m) as [m' [mp1|e]] eqn:F;
      [|discriminate].
    destruct (text_loop exhaustive mp1 rest) as [rest' r] eqn:L.
    injection H as <- ->.
    apply text_field_returns_meta in F. subst m'.
    f_equal. eauto.
Qed.

(** Running an iteration again on the field it left gives the same. *)
Lemma text_field_again mp q m :
  text_field exhaustive mp q (fst (text_field exhaustive mp q m))
  = text_field exhaustive mp q m.
Proof.
  destruct m as [[tys|] [resp|] [[|]|]]; reflexivity.
Qed.

Lemma text_loop_again fields : forall mp,
  text_loop exhaustive mp (fst (text_loop exhaustive mp fields))
  = text_loop exhaustive mp fields.
Proof.
  induction fields as [|[q m] rest IH]; simpl; intros mp; [reflexivity|].
  pose proof (text_field_again mp q m) as A.
  destruct (text_field exhaustive mp q m) as [m' [mp'|e]] eqn:F; simpl in A.
  - specialize (IH mp').
    destruct (text_loop exhaustive mp' rest) as [rest' r] eqn:L; simpl in *.
    rewrite A, IH. reflexivity.
  - simpl. rewrite A. reflexivity.
Qed.

(** *** Shared dictionaries *)

Lemma default_textarea_twice m :
  default_textarea exhaustive (default_textarea exhaustive m)
  = default_textarea exhaustive m.
Proof. destruct m as [tys resp [b|]]; reflexivity. Qed.

Lemma text_field_default mp q m :
  snd (text_field exhaustive mp q (default_textarea exhaustive m))
  = snd (text_field exhaustive mp q m).
Proof. destruct m as [[tys|] [resp|] [[|]|]]; reflexivity. Qed.

Lemma defaults_of_write h0 h l m' :
  defaults_of exhaustive h0 h ->
  m' = h l \/ m' = default_textarea exhaustive (h l) ->
  defaults_of exhaustive h0 (write h l m').
Proof.
  intros Hh Hm l'. unfold write.
  destruct (Nat.eqb_spec l' l) as [->|Hne]; [|apply Hh].
  destruct (Hh l) as [E0|E0], Hm as [->| ->]; rewrite E0;
    rewrite ?default_textarea_twice; auto.
Qed.

(** Whether the labels share dictionaries or not, the loop gives the same
    mapping or raises the same exception, and what it leaves in each
    dictionary is the dictionary itself or the default written into it. *)
Lemma text_loop_shared_alike fields : forall mp h0 h,
  defaults_of exhaustive h0 h ->
  snd (text_loop_shared exhaustive mp h fields)
  = snd (text_loop exhaustive mp (deref h0 fields))
  /\ defaults_of exhaustive h0
       (fst (text_loop_shared exhaustive mp h fields)).
Proof.
  induction fields as [|[q l] rest IH]; simpl; intros mp h0 h Hh;
    [split; [reflexivity | assumption]|].
  assert (Hsnd : snd (text_field exhaustive mp q (h l))
                 = snd (text_field exhaustive mp q (h0 l))).
  { destruct (Hh l) as [->| ->]; [reflexivity | apply text_field_default]. }
  pose proof (text_field_meta mp q (h l)) as Hm.
  destruct (text_field exhaustive mp q (h l)) as [m' r] eqn:F.
  destruct (text_field exhaustive mp q (h0 l)) as [m0 r0] eqn:F0.
  simpl in Hsnd, Hm. subst r0.
  pose proof (defaults_of_write h0 h l m' Hh Hm) as Hw.
  destruct r as [mp'|e].
  - destruct (IH mp' h0 (write h l m') Hw) as [IH1 IH2].
    destruct (text_loop exhaustive mp' (deref h0 rest)) as [rest' r'].
    simpl in *. auto.
  - simpl. auto.
Qed.

End FormData.

(** X7.  Whether the labels of [rawdata['text']] hold dictionaries of their
    own or share some, the text loop returns the same mapping or raises the
    same exception, and it leaves in every dictionary either what it found
    or that with the default written in. *)
Lemma text_loop_shared_refines (exhaustive : bool) (h : store)
    (fields : list (string * ref)) :
  snd (text_loop_shared exhaustive [] h fields)
  = snd (text_loop exhaustive [] (deref h fields))
  /\ defaults_of exhaustive h
       (fst (text_loop_shared exhaustive [] h fields)).
Proof.
  apply text_loop_shared_alike. intros l. now left.
Qed.

(** C4, as the code has it.  [create_mappings] leaves the radio and checkbox
    declarations and the url of the caller's form data as they were, and in a
    text field it changes at most one thing: a ['textarea'] key that was
    absent now holds the value of the [exhaustive] switch (lines 141-142).
    When it returns, every text field that lacked the key has it, and the
    object holds the mappings and the url of the form data (lines 160-161). *)
Theorem create_mappings_only_defaults_textarea (self : GForm) (raw : rawdata)
    (exhaustive : bool) :
  let c := create_mappings self raw exhaustive in
  raw_radio (rawdata_after c) = raw_radio raw
  /\ raw_checkbox (rawdata_after c) = raw_checkbox raw
  /\ raw_url (rawdata_after c) = raw_url raw
  /\ match raw_text raw with
     | None => raw_text (rawdata_after c) = None
     | Some fields =>
         exists fields',
           raw_text (rawdata_after c) = Some fields'
           /\ Forall2 (defaulted exhaustive) fields fields'
           /\ forall m, result c = Returns m ->
                fields' = map (fun f => (fst f,
                                         default_textarea exhaustive (snd f)))
                              fields
                /\ Compile.self_after c
                   = {| mappings := Some m; url := Some (raw_url raw);
                        WAIT := WAIT self |}
     end.
Proof.
  unfold create_mappings.
  destruct (raw_text raw) as [fields|] eqn:T; simpl; [|auto].
  pose proof (text_loop_defaulted exhaustive fields []) as D.
  pose proof (text_loop_returns_fields exhaustive fields []) as Rf.
  destruct (text_loop exhaustive [] fields) as [fields' [t|e]] eqn:L;
    simpl in *.
  - assert (Hf : fields' = map (fun f => (fst f,
                                  default_textarea exhaustive (snd f))) fields)
      by (eapply Rf; reflexivity).
    destruct (raw_radio raw) as [rfields|] eqn:Rr; simpl.
    2:{ repeat split; auto. exists fields'. repeat split; auto; discriminate. }
    destruct (radio_loop [] rfields) as [rd|e]; simpl.
    2:{ repeat split; auto. exists fields'. repeat split; auto; discriminate. }
    destruct (raw_checkbox raw) as [cfields|] eqn:Cr; simpl.
    2:{ repeat split; auto. exists fields'. repeat split; auto; discriminate. }
    destruct (checkbox_loop [] cfields) as [cb|e]; simpl.
    2:{ repeat split; auto. exists fields'. repeat split; auto; discriminate. }
    repeat split; auto. exists fields'. repeat split; auto;
      injection H as <-; auto.
  - repeat split; auto. exists fields'. repeat split; auto; discriminate.
Qed.

(** C4 as stated fails: compiling the form data of [main.py] writes
    ['textarea'] into its two text fields. *)
Lemma create_mappings_mutates_form_data :
  rawdata_after (create_mappings init Examples.form_data false)
  <> Examples.form_data
  /\ raw_text (rawdata_after (create_mappings init Examples.form_data false))
     = Some
         [("Email", {| types := Some ["text"; "email"];
                       response := Some "alex.johnson@example.com";
                       textarea := Some false |});
          ("Full Name", {| types := Some ["text"];
                           response := Some "Alex Johnson";
                           textarea := Some false |})].
Proof.
  split; [|reflexivity].
  intros H. apply (f_equal raw_text) in H. cbv in H. discriminate H.
Qed.

(** C9.  Compiling the same form data a second time with the same switch
    gives the same result as the first time: the same mappings, or the same
    exception.  The second call works on the form data as the first one left
    it (with the defaults written in), and on the object as the first one
    left it; it leaves both as it found them. *)
Theorem create_mappings_twice (self : GForm) (raw : rawdata)
    (exhaustive : bool) :
  let first := create_mappings self raw exhaustive in
  let second :=
    create_mappings (Compile.self_after first) (rawdata_after first)
      exhaustive in
  result second = result first
  /\ rawdata_after second = rawdata_after first
  /\ Compile.self_after second = Compile.self_after first.
Proof.
  unfold create_mappings.
  destruct (raw_text raw) as [fields|] eqn:T; simpl.
  2:{ rewrite T. auto. }
  pose proof (text_loop_again exhaustive fields []) as A.
  destruct (text_loop exhaustive [] fields) as [fields' [t|e]] eqn:L;
    simpl in A.
  - destruct (raw_radio raw) as [rfields|] eqn:Rr; simpl.
    2:{ rewrite A, Rr. auto. }
    destruct (radio_loop [] rfields) as [rd|e] eqn:R; simpl.
    2:{ rewrite A, Rr, R. auto. }
    destruct (raw_checkbox raw) as [cfields|] eqn:Cr; simpl.
    2:{ rewrite A, Rr, R, Cr. auto. }
    destruct (checkbox_loop [] cfields) as [cb|e] eqn:C; simpl;
      rewrite A, Rr, R, Cr, C; auto.
  - simpl. rewrite A. auto.
Qed.

(** ** The text loop, one iteration at a time *)

Section TextLoop.

Variable exhaustive : bool.

Lemma textarea_default m :
  textarea (default_textarea exhaustive m) = Some (effective exhaustive m).
Proof.
  unfold default_textarea, effective.
  destruct (textarea m) eqn:T; simpl; [assumption | reflexivity].
Qed.

(** An iteration that returns went through lines 135-139 and 144-146. *)
Lemma text_field_returns mp q m m' mp' :
  text_field exhaustive mp q m = (m', Returns mp') ->
  exists mp1,
    insert_primary mp q m = Returns mp1
    /\ apply_fallback mp1 q (default_textarea exhaustive m) = Returns mp'.
Proof.
  unfold text_field. destruct (insert_primary mp q m) as [mp1|e];
    [|discriminate].
  intros H. injection H as _ H. eauto.
Qed.

Lemma text_loop_app l1 : forall mp l2,
  text_loop exhaustive mp (l1 ++ l2)%list
  = match text_loop exhaustive mp l1 with
    | (l1', Raises e) => ((l1' ++ l2)%list, Raises e)
    | (l1', Returns mp') =>
        let (l2', r) := text_loop exhaustive mp' l2 in ((l1' ++ l2')%list, r)
    end.
Proof.
  induction l1 as [|[q m] l1 IH]; simpl; intros mp l2.
  - now destruct (text_loop exhaustive mp l2).
  - destruct (text_field exhaustive mp q m) as [m' [mp'|e]]; [|reflexivity].
    rewrite IH.
    destruct (text_loop exhaustive mp' l1) as [l1' [mp''|e]];
      [|reflexivity].
    now destruct (text_loop exhaustive mp'' l2).
Qed.

(** *** Where the entries come from *)

Lemma comes_from_longer_key fields key value suffix :
  comes_from fields (key, value) ->
  comes_from fields (key ++ suffix, value).
Proof.
  intros (q & m & tys & Hin & Hty & Hre & Hst).
  exists q, m, tys. simpl in *. auto using starts_with_append.
Qed.

Lemma insert_primary_comes_from fields mp q m mp1 :
  insert_primary mp q m = Returns mp1 ->
  In (q, m) fields ->
  (forall entry, In entry mp -> comes_from fields entry) ->
  forall entry, In entry mp1 -> comes_from fields entry.
Proof.
  unfold insert_primary. intros H Hin Hmp entry He.
  destruct (types m) as [tys|] eqn:T.
  - destruct (response m) as [resp|] eqn:R; [|discriminate].
    injection H as <-.
    apply in_dict_set in He as [->|He]; [|auto].
    exists q, m, tys. simpl. auto using starts_with_refl.
  - injection H as <-. auto.
Qed.

Lemma apply_fallback_comes_from fields mp1 q m mp' :
  apply_fallback mp1 q m = Returns mp' ->
  (forall entry, In entry mp1 -> comes_from fields entry) ->
  forall entry, In entry mp' -> comes_from fields entry.
Proof.
  unfold apply_fallback. intros H Hmp entry He.
  destruct (textarea m) as [[|]|]; try (injection H as <-; now auto).
  destruct (popitem mp1) as [[mp2 [key value]]|] eqn:P; [|discriminate].
  injection H as <-. apply popitem_some in P. subst mp1.
  apply in_dict_set in He as [->|He].
  - apply comes_from_longer_key. apply Hmp, in_or_app. right. now left.
  - apply Hmp, in_or_app. now left.
Qed.

Lemma comes_from_incl fields fields' entry :
  incl fields fields' -> comes_from fields entry -> comes_from fields' entry.
Proof.
  intros Hi (q & m & tys & Hin & H). exists q, m, tys. auto.
Qed.

(** Every entry of the text mapping comes from a field that the loop went
    through. *)
Lemma text_loop_comes_from fields : forall done_ mp fields' mp',
  text_loop exhaustive mp fields = (fields', Returns mp') ->
  (forall entry, In entry mp -> comes_from done_ entry) ->
  forall entry, In entry mp' -> comes_from (done_ ++ fields)%list entry.
Proof.
  induction fields as [|[q m] rest IH]; simpl; intros done_ mp fields' mp' H Hmp.
  - injection H as _ <-. intros entry He. rewrite app_nil_r. auto.
  - destruct (text_field exhaustive mp q m) as [m' [mp1|e]] eqn:F;
      [|discriminate].
    destruct (text_loop exhaustive mp1 rest) as [rest' r] eqn:L.
    injection H as _ ->.
    apply text_field_returns in F as (mp0 & Hi & Hf).
    intros entry He.
    replace (done_ ++ (q, m) :: rest)%list
      with ((done_ ++ [(q, m)]) ++ rest)%list
      by (now rewrite <- app_assoc).
    eapply IH; [exact L | | exact He].
    eapply apply_fallback_comes_from; [exact Hf|].
    eapply insert_primary_comes_from; [exact Hi | |].
    + apply in_or_app. right. now left.
    + intros e0 H0. eapply comes_from_incl; [|eauto].
      apply incl_appl, incl_refl.
Qed.

(** *** What becomes of a key *)

Lemma dict_set_has_key_from p (mp : dict string) k v :
  has_key_from p mp -> has_key_from p (dict_set mp k v).
Proof.
  intros (k0 & v0 & Hin & Hp).
  induction mp as [|[k1 v1] mp IH]; simpl; [destruct Hin|].
  destruct (String.eqb_spec k1 k) as [->|Hne].
  - destruct Hin as [Heq|Hin].
    + injection Heq as -> ->. exists k0, v. split; [now left | assumption].
    + exists k0, v0. split; [now right | assumption].
  - destruct Hin as [Heq|Hin].
    + injection Heq as -> ->. exists k0, v0. split; [now left | assumption].
    + destruct (IH Hin) as (k2 & v2 & Hin2 & Hp2).
      exists k2, v2. split; [now right | assumption].
Qed.

Lemma insert_primary_has_key_from p mp q m mp1 :
  insert_primary mp q m = Returns mp1 ->
  has_key_from p mp -> has_key_from p mp1.
Proof.
  unfold insert_primary.
  destruct (types m); [destruct (response m); [|discriminate]|];
    intros H; injection H as <-; auto using dict_set_has_key_from.
Qed.

Lemma apply_fallback_has_key_from p mp1 q m mp' :
  apply_fallback mp1 q m = Returns mp' ->
  has_key_from p mp1 -> has_key_from p mp'.
Proof.
  unfold apply_fallback. intros H Hk.
  destruct (textarea m) as [[|]|]; try (injection H as <-; now auto).
  destruct (popitem mp1) as [[mp2 [key value]]|] eqn:P; [|discriminate].
  injection H as <-. apply popitem_some in P. subst mp1.
  destruct Hk as (k & v & Hin & Hp).
  apply in_app_or in Hin as [Hin|[Heq|[]]].
  - apply dict_set_has_key_from. exists k, v. auto.
  - injection Heq as -> ->.
    exists (union_xpath k q), v. split; [apply dict_set_has_key|].
    unfold union_xpath. now apply starts_with_append.
Qed.

Lemma text_loop_has_key_from p fields : forall mp fields' mp',
  text_loop exhaustive mp fields = (fields', Returns mp') ->
  has_key_from p mp -> has_key_from p mp'.
Proof.
  induction fields as [|[q m] rest IH]; simpl; intros mp fields' mp' H Hk.
  - now injection H as _ <-.
  - destruct (text_field exhaustive mp q m) as [m' [mp1|e]] eqn:F;
      [|discriminate].
    destruct (text_loop exhaustive mp1 rest) as [rest' r] eqn:L.
    injection H as _ ->.
    apply text_field_returns in F as (mp0 & Hi & Hf).
    eapply IH; [exact L|].
    eapply apply_fallback_has_key_from; [exact Hf|].
    eapply insert_primary_has_key_from; eauto.
Qed.

(** A field with ['types'] leaves a key that starts with its input X-path. *)
Lemma text_loop_keeps_input_xpath fields : forall mp fields' mp' q m tys,
  text_loop exhaustive mp fields = (fields', Returns mp') ->
  In (q, m) fields -> types m = Some tys ->
  has_key_from (input_xpath q tys) mp'.
Proof.
  induction fields as [|[q0 m0] rest IH]; simpl;
    intros mp fields' mp' q m tys H Hin Hty; [destruct Hin|].
  destruct (text_field exhaustive mp q0 m0) as [m' [mp1|e]] eqn:F;
    [|discriminate].
  destruct (text_loop exhaustive mp1 rest) as [rest' r] eqn:L.
  injection H as _ ->.
  destruct Hin as [Heq|Hin]; [|eauto].
  injection Heq as -> ->.
  apply text_field_returns in F as (mp0 & Hi & Hf).
  eapply text_loop_has_key_from; [exact L|].
  eapply apply_fallback_has_key_from; [exact Hf|].
  unfold insert_primary in Hi. rewrite Hty in Hi.
  destruct (response m) as [resp|]; [|discriminate].
  injection Hi as <-.
  exists (input_xpath q tys), resp.
  split; [apply dict_set_has_key | apply starts_with_refl].
Qed.

End TextLoop.

(** When [create_mappings] returns, its text mapping is what the text loop
    returned from the empty dictionary. *)
Lemma create_mappings_returns self raw exhaustive m :
  result (create_mappings self raw exhaustive) = Returns m ->
  exists fields fields',
    raw_text raw = Some fields
    /\ text_loop exhaustive [] fields = (fields', Returns (text m)).
Proof.
  unfold create_mappings.
  destruct (raw_text raw) as [fields|]; simpl; [|discriminate].
  destruct (text_loop exhaustive [] fields) as [fields' [t|e]] eqn:L; simpl;
    [|discriminate].
  destruct (raw_radio raw) as [rfields|]; simpl; [|discriminate].
  destruct (radio_loop [] rfields) as [rd|e]; simpl; [|discriminate].
  destruct (raw_checkbox raw) as [cfields|]; simpl; [|discriminate].
  destruct (checkbox_loop [] cfields) as [cb|e]; simpl; [|discriminate].
  intros H. injection H as <-. simpl. eauto.
Qed.

(** ** Type hints *)

Section TypeHints.

Lemma text_types_any_of ty tys :
  text_types (ty :: tys) = XPath.render (XPath.any_of ty tys).
Proof.
  unfold text_types. revert ty.
  induction tys as [|ty' tys IH]; intros ty; [reflexivity|].
  change (type_test ty ++ " or " ++ String.concat " or " (map type_test (ty' :: tys))
          = type_test ty ++ " or " ++ XPath.render (XPath.any_of ty' tys)).
  now rewrite IH.
Qed.

Lemma holds_any_of ty tys a :
  XPath.holds (XPath.any_of ty tys) a = existsb (String.eqb a) (ty :: tys).
Proof.
  revert ty. induction tys as [|ty' tys IH]; intros ty; simpl.
  - now rewrite orb_false_r.
  - rewrite IH. reflexivity.
Qed.

Lemma occurs_in_concat sep x l :
  In x l -> occurs_in x (String.concat sep l).
Proof.
  induction l as [|y l IH]; [intros []|].
  intros [->|Hin].
  - destruct l as [|z l].
    + exists EmptyString, EmptyString. simpl. now rewrite append_empty.
    + exists EmptyString, (sep ++ String.concat sep (z :: l)). reflexivity.
  - destruct l as [|z l]; [destruct Hin|].
    destruct (IH Hin) as (a & b & Hab).
    exists (y ++ sep ++ a), b.
    change (String.concat sep (y :: z :: l))
      with (y ++ sep ++ String.concat sep (z :: l)).
    rewrite Hab. now rewrite !append_assoc.
Qed.

Lemma occurs_in_input_xpath q tys t :
  In t tys -> occurs_in (type_test t) (input_xpath q tys).
Proof.
  intros Hin.
  destruct (occurs_in_concat " or " (type_test t) (map type_test tys))
    as (a & b & Hab); [now apply in_map|].
  unfold input_xpath, text_types. rewrite Hab.
  exists ("//span[contains(text(), " ++ dq ++ q ++ dq
            ++ ")]/../../../..//input[" ++ a), (b ++ "]").
  now rewrite !append_assoc.
Qed.

End TypeHints.

(** C8.  A text field with the type hints [ty :: tys] (one hint or more)
    compiles to a key whose bracketed test is the hints' tests joined by
    [or]: the rendering of a disjunction that an element passes exactly when
    its type is one of the hints.  The key of the compiled entry starts with
    that input X-path (a fallback only appends to it), and every hint's test
    occurs in it. *)
Theorem type_hints_joined_by_or (self : GForm) (raw : rawdata)
    (exhaustive : bool) (m : Mappings) (q : string) (meta : text_meta)
    (ty : string) (tys : list string) :
  result (create_mappings self raw exhaustive) = Returns m ->
  In (q, meta) (items (raw_text raw)) ->
  types meta = Some (ty :: tys) ->
  let test := XPath.any_of ty tys in
  (forall a, XPath.holds test a = existsb (String.eqb a) (ty :: tys))
  /\ exists k v,
       In (k, v) (text m)
       /\ starts_with
            ("//span[contains(text(), " ++ dq ++ q ++ dq
               ++ ")]/../../../..//input[" ++ XPath.render test ++ "]") k
       /\ forall t, In t (ty :: tys) ->
            occurs_in ("@type=" ++ dq ++ t ++ dq) k.
Proof.
  intros Hres Hin Hty test. split; [apply holds_any_of|].
  apply create_mappings_returns in Hres as (fields & fields' & Hraw & Hloop).
  rewrite Hraw in Hin. simpl in Hin.
  destruct (text_loop_keeps_input_xpath _ _ _ _ _ _ _ _ Hloop Hin Hty)
    as (k & v & Hk & Hst).
  exists k, v. split; [assumption|]. split.
  - unfold test. rewrite <- text_types_any_of. exact Hst.
  - intros t Ht. eapply occurs_in_starts_with; [|exact Hst].
    now apply occurs_in_input_xpath.
Qed.

Lemma type_hints_joined_by_or_witness :
  let test := XPath.any_of "text" ["email"] in
  (forall a, XPath.holds test a = existsb (String.eqb a) ["text"; "email"])
  /\ exists k v,
       In (k, v) (text Examples.form_data_mappings)
       /\ starts_with
            ("//span[contains(text(), " ++ dq ++ "Email" ++ dq
               ++ ")]/../../../..//input[" ++ XPath.render test ++ "]") k
       /\ forall t, In t ["text"; "email"] ->
            occurs_in ("@type=" ++ dq ++ t ++ dq) k.
Proof.
  apply (type_hints_joined_by_or init Examples.form_data false
           Examples.form_data_mappings "Email"
           {| types := Some ["text"; "email"];
              response := Some "alex.johnson@example.com";
              textarea := None |}).
  - reflexivity.
  - simpl. now left.
  - reflexivity.
Defined.

(** ** A text field without ['types'] *)

(** C10.  Take a text field [(q, meta)] without ['types'] whose flag is in
    effect (its own ['textarea'] is true, or it has none and the switch is
    on), and let the loop have gone through the fields [before] it, leaving
    the mapping [mp].  The field's iteration inserts nothing of its own:
    - if [mp] is empty, [popitem] raises and so does [create_mappings];
    - otherwise the last item [(key, value)] of [mp], which comes from one of
      the fields [before], is taken out and put back with the same value
      under [key], [ | ] and the textarea X-path of the label [q], the label
      of the field without ['types']; every entry of the mapping still comes
      from one of the fields [before]. *)
Theorem fallback_without_types (self : GForm) (raw : rawdata)
    (exhaustive : bool) (before after before' : dict text_meta)
    (q : string) (meta : text_meta) (mp : dict string) :
  raw_text raw = Some (before ++ (q, meta) :: after)%list ->
  types meta = None ->
  effective exhaustive meta = true ->
  text_loop exhaustive [] before = (before', Returns mp) ->
  match popitem mp with
  | None =>
      mp = []
      /\ result (create_mappings self raw exhaustive) = Raises popitem_empty
  | Some (mp', (key, value)) =>
      mp = (mp' ++ [(key, value)])%list
      /\ comes_from before (key, value)
      /\ text_loop exhaustive [] (before ++ [(q, meta)])%list
         = ((before' ++ [(q, default_textarea exhaustive meta)])%list,
            Returns
              (dict_set mp'
                 (key ++ " | " ++ "//span[contains(text(), " ++ dq ++ q ++ dq
                    ++ ")]/../../../..//textarea")
                 value))
      /\ forall entry,
           In entry
             (dict_set mp'
                (key ++ " | " ++ "//span[contains(text(), " ++ dq ++ q ++ dq
                   ++ ")]/../../../..//textarea")
                value) ->
           comes_from before entry
  end.
Proof.
  intros Hraw Hty Heff Hloop.
  assert (Hstep : text_field exhaustive mp q meta
                  = (default_textarea exhaustive meta,
                     match popitem mp with
                     | Some (mp', (key, value)) =>
                         Returns (dict_set mp' (union_xpath key q) value)
                     | None => Raises popitem_empty
                     end)).
  { unfold text_field, insert_primary, apply_fallback.
    rewrite Hty, textarea_default, Heff. reflexivity. }
  assert (Hfrom : forall entry, In entry mp -> comes_from before entry).
  { intros entry He.
    apply (text_loop_comes_from exhaustive before [] [] before' mp Hloop);
      [intros ? []| exact He]. }
  destruct (popitem mp) as [[mp' [key value]]|] eqn:P.
  - apply popitem_some in P. subst mp.
    change (key ++ " | " ++ "//span[contains(text(), " ++ dq ++ q ++ dq
              ++ ")]/../../../..//textarea")
      with (union_xpath key q).
    split; [reflexivity|]. split.
    { apply Hfrom, in_or_app. right. now left. }
    split.
    + rewrite text_loop_app, Hloop. simpl. rewrite Hstep. reflexivity.
    + intros entry He. apply in_dict_set in He as [->|He].
      * apply comes_from_longer_key, Hfrom, in_or_app. right. now left.
      * apply Hfrom, in_or_app. now left.
  - apply popitem_none in P. split; [assumption|].
    unfold create_mappings. rewrite Hraw, text_loop_app, Hloop.
    simpl. rewrite Hstep. reflexivity.
Qed.

Lemma fallback_without_types_witness :
  let email := {| types := Some ["text"]; response := Some "a@b.c";
                  textarea := Some false |} in
  let notes := {| types := None; response := Some "hello";
                  textarea := None |} in
  comes_from [("Email", email)] (input_xpath "Email" ["text"], "a@b.c")
  /\ text_loop true [] [("Email", email); ("Notes", notes)]
     = ([("Email", email); ("Notes", default_textarea true notes)],
        Returns [("//span[contains(text(), " ++ dq ++ "Email" ++ dq
                    ++ ")]/../../../..//input[@type=" ++ dq ++ "text" ++ dq
                    ++ "] | //span[contains(text(), " ++ dq ++ "Notes" ++ dq
                    ++ ")]/../../../..//textarea",
                  "a@b.c")]).
Proof.
  intros email notes.
  pose proof (fallback_without_types init
                {| raw_text := Some [("Email", email); ("Notes", notes)];
                   raw_radio := Some []; raw_checkbox := Some [];
                   raw_url := None |}
                true [("Email", email)] [] [("Email", email)]
                "Notes" notes [(input_xpath "Email" ["text"], "a@b.c")]
                eq_refl eq_refl eq_refl eq_refl) as H.
  simpl in H. destruct H as (_ & H2 & H3 & _).
  split; [exact H2 | exact H3].
Defined.

(** ** The exhaustive switch *)

Section Labels.

Lemma labelled_input_xpath q tys : labelled q (input_xpath q tys).
Proof.
  exists (")]/../../../..//input[" ++ text_types tys ++ "]").
  unfold input_xpath. now rewrite !append_assoc.
Qed.

Lemma labelled_union_xpath q key q' :
  labelled q key -> labelled q (union_xpath key q').
Proof. apply starts_with_append. Qed.

Lemma labelled_inj q q' k :
  quote_free q = true -> quote_free q' = true ->
  labelled q k -> labelled q' k -> q = q'.
Proof.
  intros Hq Hq' [r ->] [r' H].
  rewrite !append_assoc in H.
  apply append_inv_head in H. apply append_inv_head in H.
  eapply quoted_word_inj; eauto.
Qed.

Lemma Forall2_nth_error_l {A B} (R : A -> B -> Prop) l l' :
  Forall2 R l l' ->
  forall i x, nth_error l i = Some x ->
  exists y, nth_error l' i = Some y /\ R x y.
Proof.
  induction 1 as [|a b l l' Hab _ IH]; intros [|i] x Hx; simpl in *;
    try discriminate.
  - injection Hx as <-. eauto.
  - eauto.
Qed.

(** An X-path is not the union built on it. *)
Lemma union_xpath_differs k q : k <> union_xpath k q.
Proof.
  intros H. apply (f_equal String.length) in H.
  unfold union_xpath in H. rewrite length_append in H. simpl in H. lia.
Qed.

(** The locators of a field open with the span test of its label. *)
Lemma locators_labelled f k : In k (locators f) -> labelled (fst f) k.
Proof.
  unfold locators. destruct (types (snd f)) as [tys|]; [|intros []].
  intros [<-|[<-|[]]].
  - apply labelled_input_xpath.
  - apply labelled_union_xpath, labelled_input_xpath.
Qed.

Lemma in_concat_locators fields k :
  In k (concat (map locators fields)) ->
  exists f, In f fields /\ In k (locators f).
Proof.
  rewrite in_concat. intros (l & Hl & Hk).
  apply in_map_iff in Hl as (f & <- & Hf). eauto.
Qed.

(** Labels that are distinct and hold no double quote give pairwise distinct
    locators. *)
Lemma quote_free_labels_distinct_locators fields :
  NoDup (keys fields) ->
  Forall (fun f => quote_free (fst f) = true) fields ->
  NoDup (concat (map locators fields)).
Proof.
  induction fields as [|[q m] rest IH]; intros Hnd Hqf; [constructor|].
  inversion Hnd as [|? ? Hq Hnd']; subst.
  inversion Hqf as [|? ? Hq0 Hqf']; subst. simpl in Hq0.
  assert (Hrest : forall k, labelled q k ->
                    ~ In k (concat (map locators rest))).
  { intros k Hk Hin.
    apply in_concat_locators in Hin as ([q' m'] & Hf & Hk').
    apply locators_labelled in Hk'. simpl in Hk'.
    rewrite Forall_forall in Hqf'. specialize (Hqf' _ Hf). simpl in Hqf'.
    assert (q = q') by (eapply labelled_inj; eauto). subst q'.
    apply Hq. unfold keys. apply in_map_iff. exists (q, m'). auto. }
  change (NoDup (locators (q, m) ++ concat (map locators rest))).
  unfold locators at 1. cbn [fst snd].
  destruct (types m) as [tys|]; [|now apply IH].
  constructor; [|constructor; [|now apply IH]].
  - intros [H|H]; [symmetry in H; now apply union_xpath_differs in H|].
    revert H. apply Hrest, labelled_input_xpath.
  - apply Hrest, labelled_union_xpath, labelled_input_xpath.
Qed.

End Labels.

Section Exhaustive.

Variable exhaustive : bool.

(** With ['types'] in every field and pairwise distinct locators, each
    iteration appends one entry: the field's own. *)
Lemma text_loop_entries fields : forall mp fields' mp',
  text_loop exhaustive mp fields = (fields', Returns mp') ->
  Forall (fun f => types (snd f) <> None) fields ->
  NoDup (concat (map locators fields)) ->
  (forall k, In k (keys mp) -> ~ In k (concat (map locators fields))) ->
  exists entries,
    mp' = (mp ++ entries)%list
    /\ Forall2 (fun f entry => compiled_entry exhaustive f = Some entry)
         fields entries.
Proof.
  induction fields as [|[q m] rest IH];
    intros mp fields' mp' H Hty Hnd Hmp.
  - simpl in H. injection H as _ <-. exists []. rewrite app_nil_r.
    split; constructor.
  - simpl in H.
    destruct (text_field exhaustive mp q m) as [m' [mp1|e]] eqn:F;
      [|discriminate].
    destruct (text_loop exhaustive mp1 rest) as [rest' r] eqn:L.
    injection H as _ ->.
    inversion Hty as [|? ? Hty0 Hty']; subst. simpl in Hty0.
    change (concat (map locators ((q, m) :: rest)))
      with (locators (q, m) ++ concat (map locators rest))%list in Hnd, Hmp.
    unfold locators at 1 in Hnd. unfold locators at 1 in Hmp.
    cbn [fst snd] in Hnd, Hmp.
    unfold text_field, insert_primary in F.
    destruct (types m) as [tys|] eqn:T; [|contradiction].
    cbn [app] in Hnd, Hmp.
    inversion Hnd as [|? ? HI Hnd1]; subst.
    inversion Hnd1 as [|? ? HU Hnd']; subst.
    assert (HfI : ~ In (input_xpath q tys) (keys mp)).
    { intros Hin. apply (Hmp _ Hin). now left. }
    assert (HfU : ~ In (union_xpath (input_xpath q tys) q) (keys mp)).
    { intros Hin. apply (Hmp _ Hin). right. now left. }
    destruct (response m) as [resp|] eqn:R; [|discriminate].
    injection F as <- F.
    rewrite dict_set_fresh in F by exact HfI.
    unfold apply_fallback in F. rewrite textarea_default in F.
    assert (Hone : exists entry,
               mp1 = (mp ++ [entry])%list
               /\ compiled_entry exhaustive (q, m) = Some entry
               /\ (fst entry = input_xpath q tys
                   \/ fst entry = union_xpath (input_xpath q tys) q)).
    { unfold compiled_entry. simpl. rewrite T, R.
      destruct (effective exhaustive m).
      - rewrite popitem_last in F.
        rewrite dict_set_fresh in F by exact HfU.
        injection F as <-. eexists. split; [reflexivity|].
        split; [reflexivity|]. now right.
      - injection F as <-. eexists. split; [reflexivity|].
        split; [reflexivity|]. now left. }
    destruct Hone as (entry & -> & Hentry & Hkey).
    destruct (IH _ _ _ L Hty' Hnd') as (entries & -> & Hall).
    + intros k Hin. unfold keys in Hin. rewrite map_app in Hin.
      apply in_app_or in Hin as [Hin|[<-|[]]].
      * intros Hr. apply (Hmp k Hin). right. now right.
      * destruct Hkey as [->| ->]; [|exact HU].
        intros Hr. apply HI. now right.
    + exists (entry :: entries). split.
      * now rewrite <- app_assoc.
      * constructor; assumption.
Qed.

End Exhaustive.

(** C6, as the code has it.  Let every text field have a ['types'] key and
    let the locators of the fields, input X-paths and unions, be pairwise
    distinct (as they are when no label holds a double quote: the labels
    are distinct, being keys of a dictionary).  When [create_mappings]
    returns with the switch on, the text mapping has one entry per field, in
    the order of the fields, and a field without a ['textarea'] key of its
    own has, at its own position, the entry whose value is its response and
    whose key is its input X-path, [ | ], and the textarea X-path of the
    same label. *)
Theorem exhaustive_union_entry (self : GForm) (raw : rawdata)
    (fields : dict text_meta) (m : Mappings) :
  raw_text raw = Some fields ->
  Forall (fun f => types (snd f) <> None) fields ->
  NoDup (concat (map locators fields)) ->
  result (create_mappings self raw true) = Returns m ->
  length (text m) = length fields
  /\ forall i q meta,
       nth_error fields i = Some (q, meta) ->
       textarea meta = None ->
       exists tys resp,
         types meta = Some tys
         /\ response meta = Some resp
         /\ nth_error (text m) i
            = Some (("//span[contains(text(), " ++ dq ++ q ++ dq
                       ++ ")]/../../../..//input["
                       ++ String.concat " or "
                            (map (fun ty => "@type=" ++ dq ++ ty ++ dq) tys)
                       ++ "]")
                      ++ " | "
                      ++ "//span[contains(text(), " ++ dq ++ q ++ dq
                      ++ ")]/../../../..//textarea",
                    resp).
Proof.
  intros Hraw Hty Hnd Hres.
  apply create_mappings_returns in Hres as (fields0 & fields' & Hraw' & Hloop).
  rewrite Hraw in Hraw'. injection Hraw' as <-.
  destruct (text_loop_entries true fields [] fields' (text m) Hloop Hty Hnd)
    as (entries & He & Hall); [intros k []|].
  simpl in He. rewrite He. split.
  - symmetry. eapply Forall2_length; eauto.
  - intros i q meta Hi Hta.
    destruct (Forall2_nth_error_l _ _ _ Hall i (q, meta) Hi)
      as ([k v] & Hn & Hc).
    unfold compiled_entry, effective in Hc. cbn [fst snd] in Hc.
    rewrite Hta in Hc.
    destruct (types meta) as [tys|]; [|discriminate].
    destruct (response meta) as [resp|]; [|discriminate].
    injection Hc as <- <-. exists tys, resp.
    split; [reflexivity|]. split; [reflexivity|]. exact Hn.
Qed.

Lemma exhaustive_union_entry_witness :
  result (create_mappings init Examples.form_data true)
  = Returns Examples.form_data_mappings_exhaustive
  /\ length (text Examples.form_data_mappings_exhaustive) = 2
  /\ nth_error (text Examples.form_data_mappings_exhaustive) 1
     = Some ("//span[contains(text(), " ++ dq ++ "Full Name" ++ dq
               ++ ")]/../../../..//input[@type=" ++ dq ++ "text" ++ dq
               ++ "] | //span[contains(text(), " ++ dq ++ "Full Name" ++ dq
               ++ ")]/../../../..//textarea",
             "Alex Johnson").
Proof.
  split; [reflexivity|].
  assert (Hty : Forall (fun f => types (snd f) <> None)
                  (items (raw_text Examples.form_data))).
  { repeat constructor; discriminate. }
  assert (Hnd : NoDup (concat (map locators
                                 (items (raw_text Examples.form_data))))).
  { apply quote_free_labels_distinct_locators.
    - simpl. repeat constructor; simpl; intuition discriminate.
    - repeat constructor. }
  destruct (exhaustive_union_entry init Examples.form_data
              (items (raw_text Examples.form_data))
              Examples.form_data_mappings_exhaustive
              eq_refl Hty Hnd eq_refl) as [Hlen H].
  split; [exact Hlen|].
  destruct (H 1 "Full Name"
              {| types := Some ["text"]; response := Some "Alex Johnson";
                 textarea := None |} eq_refl eq_refl)
    as (tys & resp & Ht & Hr & Hn).
  simpl in Ht, Hr. injection Ht as <-. injection Hr as <-. exact Hn.
Defined.

(** C6 as stated fails.  The three fields of [colliding_fields] have their
    ['types'] and their ['response'], and the switch is on.  The third field
    has no ['textarea'] key of its own, but its input X-path is the key that
    the first field left in the mapping: line 139 overwrites the value of
    that entry, and [popitem] then takes out the entry of the second field.
    The third field is left with the first entry, whose key has no textarea
    part, and the key of the second field ends with the textarea X-path of
    the third label. *)
Lemma colliding_locators_leave_no_union_entry :
  let label := "a" ++ dq ++ ")]/../../../..//input[@type=" ++ dq ++ "b" in
  nth_error (items (raw_text Examples.colliding_fields)) 2
  = Some (label, {| types := Some ["c"]; response := Some "third";
                    textarea := None |})
  /\ result (create_mappings init Examples.colliding_fields true)
     = Returns
         {| text :=
              [("//span[contains(text(), " ++ dq ++ "a" ++ dq
                  ++ ")]/../../../..//input[@type=" ++ dq ++ "b" ++ dq
                  ++ ")]/../../../..//input[@type=" ++ dq ++ "c" ++ dq ++ "]",
                "third");
               ("//span[contains(text(), " ++ dq ++ "Name" ++ dq
                  ++ ")]/../../../..//input[@type=" ++ dq ++ "text" ++ dq
                  ++ "] | //span[contains(text(), " ++ dq ++ "Name" ++ dq
                  ++ ")]/../../../..//textarea"
                  ++ " | //span[contains(text(), " ++ dq ++ label ++ dq
                  ++ ")]/../../../..//textarea",
                "second")];
            radio := []; checkbox := []; fallbacks := [] |}.
Proof. split; reflexivity. Qed.


(** ** The fill engine: traces *)

Section Traces.

Lemma bind_returns {A B} (m : M A) (k : A -> M B) s s' x :
  m s = (s', Returns x) -> bind m k s = k x s'.
Proof. intros H. unfold bind. now rewrite H. Qed.

Lemma bind_raises {A B} (m : M A) (k : A -> M B) s s' e :
  m s = (s', Raises e) -> bind m k s = (s', Raises e).
Proof. intros H. unfold bind. now rewrite H. Qed.

Lemma waits_app tr1 tr2 : waits (tr1 ++ tr2) = (waits tr1 ++ waits tr2)%list.
Proof.
  induction tr1 as [|c tr1 IH]; simpl; [reflexivity|].
  destruct c; simpl; now rewrite ?IH.
Qed.

Lemma quits_app tr1 tr2 : quits (tr1 ++ tr2) = quits tr1 + quits tr2.
Proof.
  induction tr1 as [|c tr1 IH]; simpl; [reflexivity|].
  destruct c; simpl; now rewrite ?IH.
Qed.

Lemma quits_none tr : forallb is_not_quit tr = true -> quits tr = 0.
Proof.
  induction tr as [|c tr IH]; simpl; [reflexivity|].
  intros H. apply andb_prop in H as [Hc Htr].
  destruct c; simpl in *; auto; discriminate.
Qed.

Variable P : call -> bool.

Lemma adds_only_ret {A} (x : A) : adds_only P (ret x).
Proof. intros s. exists []. simpl. now rewrite app_nil_r. Qed.

Lemma adds_only_raise {A} e : adds_only P (@raise A e).
Proof. intros s. exists []. simpl. now rewrite app_nil_r. Qed.

Lemma adds_only_set_t v : adds_only P (set_t v).
Proof. intros s. exists []. simpl. now rewrite app_nil_r. Qed.

Lemma adds_only_perform E c : P c = true -> adds_only P (perform E c).
Proof. intros H s. exists [c]. simpl. now rewrite H. Qed.

Lemma adds_only_tell c : P c = true -> adds_only P (tell c).
Proof. intros H s. exists [c]. simpl. now rewrite H. Qed.

Lemma adds_only_bind {A B} (m : M A) (k : A -> M B) :
  adds_only P m -> (forall x, adds_only P (k x)) -> adds_only P (bind m k).
Proof.
  intros Hm Hk s. unfold bind.
  destruct (Hm s) as (tr1 & H1 & P1).
  destruct (m s) as [s1 [x|e]]; simpl in H1.
  - destruct (Hk x s1) as (tr2 & H2 & P2).
    exists (tr1 ++ tr2)%list. rewrite H2, H1, app_assoc. split; [reflexivity|].
    rewrite forallb_app, P1, P2. reflexivity.
  - exists tr1. simpl. auto.
Qed.

Lemma adds_only_try_except body handler :
  adds_only P body -> (forall e, adds_only P (handler e)) ->
  adds_only P (try_except body handler).
Proof.
  intros Hb Hh s. unfold try_except.
  destruct (Hb s) as (tr1 & H1 & P1).
  destruct (body s) as [s1 [x|e]]; simpl in H1.
  - exists tr1. simpl. auto.
  - destruct (is_Exception e).
    + destruct (Hh e s1) as (tr2 & H2 & P2).
      exists (tr1 ++ tr2)%list. rewrite H2, H1, app_assoc.
      split; [reflexivity|]. rewrite forallb_app, P1, P2. reflexivity.
    + exists tr1. simpl. auto.
Qed.

Lemma adds_only_for_each {A} (l : list A) body :
  (forall x, adds_only P (body x)) -> adds_only P (for_each l body).
Proof.
  intros Hb. induction l as [|x l IH]; simpl.
  - apply adds_only_ret.
  - apply adds_only_bind; auto.
Qed.

Lemma adds_only_if {A} (b : bool) (m1 m2 : M A) :
  adds_only P m1 -> adds_only P m2 -> adds_only P (if b then m1 else m2).
Proof. destruct b; auto. Qed.

End Traces.

(** Nothing in the [try] block or its handler calls [driver.quit()]. *)
Lemma try_body_never_quits E self a u :
  adds_only is_not_quit
    (try_except (try_body E self a u)
       (fun e => tell (Log ERROR ("An error occurred: " ++ str_exn e)))).
Proof.
  apply adds_only_try_except; [|intros e; now apply adds_only_tell].
  unfold try_body, open_form, fill_and_submit, read_mappings, fill_fields,
    handle_submit.
  repeat first
    [ apply adds_only_bind; [|intros ?]
    | apply adds_only_if
    | apply adds_only_ret
    | apply adds_only_raise
    | apply adds_only_set_t
    | apply adds_only_perform; reflexivity
    | match goal with
      | |- @adds_only ?Q _ (perform ?E0 ?c) =>
          change (@adds_only Q (ret_type c) (perform E0 c));
          apply adds_only_perform; reflexivity
      end
    | apply adds_only_for_each; intros ?
    | match goal with
      | |- adds_only _ (match ?x with _ => _ end) => destruct x
      | |- adds_only _ (fill_text_field _ _ ?i) =>
          destruct i; unfold fill_text_field
      | |- adds_only _ (fill_radio_field _ _ _) => unfold fill_radio_field
      | |- adds_only _ (fill_checkbox_field _ _ _) =>
          unfold fill_checkbox_field
      end
    | apply adds_only_try_except; [|intros ?; now apply adds_only_tell] ].
Qed.

(** ** The fill engine: lines 191-195 *)

Section Assertions.

Variable E : env.

(** When the assertions pass, [fill] is its [try] block run from the entry
    frame. *)
Lemma fill_passes self a self1 u :
  passes_assertions self a = Some (self1, u) ->
  fill E self a
  = let (s, r) := guarded E self1 a u at_entry in
    {| self_left := self1; calls := trace s; returned := r |}.
Proof.
  unfold passes_assertions, fill.
  destruct (assign_url self a) as [self2|e]; [|discriminate].
  unfold bind, check_url.
  destruct (url self2) as [[u2|]|]; try discriminate.
  destruct (truthy (Some u2)); [|discriminate].
  destruct (re_match_https u2); [|discriminate].
  simpl. intros H. injection H as <- <-. reflexivity.
Qed.

(** When one does not, [fill] raises before it navigates, and the session
    is not quit. *)
Lemma fill_fails_assertion self a :
  passes_assertions self a = None ->
  exists e,
    returned (fill E self a) = Raises e
    /\ (e = AssertionError None
        \/ e = AttributeError "'GForm' object has no attribute 'url'")
    /\ (calls (fill E self a) = []
        \/ exists msg, calls (fill E self a) = [Log CRITICAL msg]).
Proof.
  unfold passes_assertions, fill.
  destruct (assign_url self a) as [self2|e] eqn:A.
  - unfold check_url.
    destruct (url self2) as [[u2|]|];
      [destruct (truthy (Some u2)); [destruct (re_match_https u2)|]| |];
      intros H; try discriminate H;
      exists (AssertionError None); cbn; eauto 6.
  - intros _. exists e. cbn. split; [reflexivity|]. split; [|auto].
    unfold assign_url in A. destruct (truthy (arg_url a)); [discriminate|].
    destruct (url self); [discriminate|]. injection A as <-. auto.
Qed.

(** The [try] block ends in [driver.quit()] and then [return t]. *)
Lemma guarded_quits_last self a u :
  exists tr,
    trace (fst (guarded E self a u at_entry)) = (tr ++ [Quit])%list
    /\ quits tr = 0
    /\ snd (guarded E self a u at_entry)
       = Returns (t (fst (guarded E self a u at_entry))).
Proof.
  unfold guarded.
  destruct (try_body_never_quits E self a u at_entry) as (tr & Htr & Hq).
  destruct (try_except _ _ at_entry) as [s1 r1]. simpl in *.
  exists tr. rewrite Htr. split; [reflexivity|].
  split; [now apply quits_none | reflexivity].
Qed.

End Assertions.

(** C3, as the code has it.  When the url passes the assertions of lines
    192-193, [fill] calls [driver.quit()] exactly once, as its last call, and
    then returns: whatever the browser, the page and the operator do, and
    whatever is raised inside the [try] block, an instance of [Exception] or
    not.  When an assertion fails (or [self.url] was never assigned), [fill]
    raises to its caller and [driver.quit()] is not called. *)
Theorem quit_exactly_once (E : env) (self : GForm) (a : fill_args) :
  match passes_assertions self a with
  | Some _ =>
      exists tr v,
        calls (fill E self a) = (tr ++ [Quit])%list
        /\ quits tr = 0
        /\ quits (calls (fill E self a)) = 1
        /\ returned (fill E self a) = Returns v
  | None =>
      exists e,
        returned (fill E self a) = Raises e
        /\ quits (calls (fill E self a)) = 0
  end.
Proof.
  destruct (passes_assertions self a) as [[self1 u]|] eqn:H.
  - rewrite (fill_passes E _ _ _ _ H).
    destruct (guarded_quits_last E self1 a u) as (tr & Htr & Hq & Hr).
    destruct (guarded E self1 a u at_entry) as [s r]. simpl in *.
    exists tr, (t s). rewrite Htr, quits_app, Hq. auto.
  - destruct (fill_fails_assertion E _ _ H) as (e & He & _ & [Hc|[msg Hc]]);
      exists e; rewrite Hc; auto.
Qed.

(** C3 as stated fails: with an [http] url the second assertion fails, and
    [fill] raises without a call of [driver.quit()]. *)
Lemma insecure_url_leaves_session_open :
  let r := fill (Examples.world (Returns tt) EmptyString EmptyString [])
             (Compile.self_after
                (create_mappings init Examples.form_data false))
             {| arg_url := Some "http://forms.gle/z6wBJuZgUuUfbvzV7";
                submit := true; interactive := false;
                review_before_submit := false; clear := false |} in
  returned r = Raises (AssertionError None)
  /\ calls r = [Log CRITICAL "Invalid URL"]
  /\ quits (calls r) = 0.
Proof.
  repeat split; reflexivity.
Qed.

(** ** The fill engine: navigation and the first checkpoint *)

(** C2, as the code has it.  Let [given] be what line 191 leaves in
    [self.url]: the argument if it is a non-empty string, else the attribute
    as it was.  With [r] the run of [fill]:
    - the attribute was never assigned: the read of line 191 raises an
      AttributeError to the caller; nothing is logged or called;
    - [given] is [None] or the empty string: the fatal message
      [URL not provided] is logged and an AssertionError is raised to the
      caller; that is the only call;
    - [given] does not match [^https://.*$]: the same with the fatal message
      [Invalid URL];
    - [given] matches and [driver.get] raises: nothing else is attempted,
      an instance of [Exception] is logged as an error, the session is quit
      and [fill] returns [-1].
    In the first three cases [fill] does not return, and neither
    [driver.get] nor [driver.quit()] is called. *)
Theorem url_or_navigation_failure (E : env) (self : GForm) (a : fill_args) :
  let given := if truthy (arg_url a) then Some (arg_url a) else url self in
  let r := fill E self a in
  (given = None ->
     returned r
     = Raises (AttributeError "'GForm' object has no attribute 'url'")
     /\ calls r = [])
  /\ (given = Some None \/ given = Some (Some EmptyString) ->
        returned r = Raises (AssertionError None)
        /\ calls r = [Log CRITICAL "URL not provided"])
  /\ (forall u,
        given = Some (Some u) -> u <> EmptyString ->
        re_match_https u = false ->
        returned r = Raises (AssertionError None)
        /\ calls r = [Log CRITICAL "Invalid URL"])
  /\ (forall u e,
        given = Some (Some u) -> re_match_https u = true ->
        E [] (Get u) = Raises e ->
        returned r = Returns not_completed
        /\ calls r
           = (Get u
                :: (if is_Exception e
                    then [Log ERROR ("An error occurred: " ++ str_exn e)]
                    else [])
                ++ [Quit])%list).
Proof.
  intros given r.
  assert (Hr : r = match given with
                   | None =>
                       {| self_left := self; calls := [];
                          returned :=
                            Raises (AttributeError
                                      "'GForm' object has no attribute 'url'") |}
                   | Some o =>
                       let self1 := {| mappings := mappings self; url := Some o;
                                       WAIT := WAIT self |} in
                       let (s, x) := (u <- check_url self1 ;;
                                      guarded E self1 a u) at_entry in
                       {| self_left := self1; calls := trace s;
                          returned := x |}
                   end).
  { subst r given. unfold fill, assign_url.
    destruct (truthy (arg_url a)); [reflexivity|].
    destruct self as [mp [o|] w]; reflexivity. }
  assert (Hcheck : forall u, u <> EmptyString ->
            truthy (Some u) = true).
  { intros u Hu. unfold truthy.
    destruct (String.eqb_spec u EmptyString); [contradiction|reflexivity]. }
  split; [|split; [|split]].
  - intros H. rewrite Hr, H. auto.
  - intros [H|H]; rewrite Hr, H; auto.
  - intros u H Hu Hre. rewrite Hr, H.
    unfold check_url, bind. cbn [url]. rewrite (Hcheck u Hu), Hre. auto.
  - intros u e H Hre He.
    assert (Hu : u <> EmptyString) by (intros ->; discriminate Hre).
    rewrite Hr, H.
    unfold check_url, bind. cbn [url]. rewrite (Hcheck u Hu), Hre.
    unfold guarded, try_except, try_body, open_form, bind, perform, tell,
      ret, record, at_entry.
    simpl. rewrite He. destruct (is_Exception e); auto.
Qed.

Lemma url_or_navigation_failure_witness :
  let E := Examples.world
             (Raises (OtherException "WebDriverException"
                        "Message: unknown error: net::ERR_NAME_NOT_RESOLVED"))
             EmptyString EmptyString [] in
  let self := Compile.self_after
                (create_mappings init Examples.form_data false) in
  let a := {| arg_url := Some "https://forms.gle/z6wBJuZgUuUfbvzV7";
              submit := true; interactive := false;
              review_before_submit := false; clear := false |} in
  returned (fill E self a) = Returns not_completed
  /\ calls (fill E self a)
     = [Get "https://forms.gle/z6wBJuZgUuUfbvzV7";
        Log ERROR ("An error occurred: "
                   ++ "Message: unknown error: net::ERR_NAME_NOT_RESOLVED");
        Quit].
Proof.
  intros E self a.
  destruct (url_or_navigation_failure E self a) as (_ & _ & _ & H).
  exact (H "https://forms.gle/z6wBJuZgUuUfbvzV7"
           (OtherException "WebDriverException"
              "Message: unknown error: net::ERR_NAME_NOT_RESOLVED")
           eq_refl eq_refl eq_refl).
Defined.

(** C2 as stated fails: with no url at all, [fill] does not return [-1]; the
    first assertion fails and the AssertionError reaches the caller. *)
Lemma absent_url_raises :
  let self := Compile.self_after
                (create_mappings init Examples.form_data false) in
  let r := fill (Examples.world (Returns tt) EmptyString EmptyString [])
             self default_args in
  arg_url default_args = None
  /\ url self = Some None
  /\ returned r = Raises (AssertionError None)
  /\ calls r = [Log CRITICAL "URL not provided"].
Proof.
  repeat split; reflexivity.
Qed.

(** C7.  In interactive mode, when the url passes the assertions, the page
    loads and the operator answers [q] at the first prompt, [fill] returns
    [-1], and its calls are the navigation, the prompt and [driver.quit()]:
    nothing is located, typed, clicked or submitted. *)
Theorem cancel_before_filling (E : env) (self self1 : GForm) (a : fill_args)
    (u : string) :
  interactive a = true ->
  passes_assertions self a = Some (self1, u) ->
  E [] (Get u) = Returns tt ->
  E [Get u] (Input start_prompt) = Returns "q" ->
  returned (fill E self a) = Returns not_completed
  /\ calls (fill E self a) = [Get u; Input start_prompt; Quit]
  /\ existsb is_form_action (calls (fill E self a)) = false
  /\ waits (calls (fill E self a)) = [].
Proof.
  intros Hi Hp Hget Hin. rewrite (fill_passes E _ _ _ _ Hp).
  unfold guarded, try_except, try_body, open_form, bind, perform, tell, ret,
    record, at_entry.
  rewrite Hi. simpl. rewrite Hget. simpl. rewrite Hin. simpl. auto.
Qed.

Lemma cancel_before_filling_witness :
  let E := Examples.world (Returns tt) "q" EmptyString [] in
  let self := Compile.self_after
                (create_mappings init Examples.form_data false) in
  let a := {| arg_url := Some "https://forms.gle/z6wBJuZgUuUfbvzV7";
              submit := true; interactive := true;
              review_before_submit := true; clear := false |} in
  returned (fill E self a) = Returns not_completed
  /\ calls (fill E self a)
     = [Get "https://forms.gle/z6wBJuZgUuUfbvzV7"; Input start_prompt; Quit]
  /\ existsb is_form_action (calls (fill E self a)) = false
  /\ waits (calls (fill E self a)) = [].
Proof.
  intros E self a.
  exact (cancel_before_filling E self _ a
           "https://forms.gle/z6wBJuZgUuUfbvzV7"
           eq_refl eq_refl eq_refl eq_refl).
Defined.

(** ** The fill engine: the loops and submit *)

Section Attempts.

Variable E : env.
Variable self : GForm.
Variable a : fill_args.

Lemma locates_ret : locates [] (ret tt).
Proof.
  intros [tr0 t0]. exists []. simpl. now rewrite app_nil_r.
Qed.

Lemma locates_bind xs ys (m k : M unit) :
  locates xs m -> locates ys k -> locates (xs ++ ys) (m ;; k).
Proof.
  intros Hm Hk s. unfold bind.
  destruct (Hm s) as (tr1 & -> & W1).
  destruct (Hk {| trace := (trace s ++ tr1)%list; t := t s |})
    as (tr2 & -> & W2).
  exists (tr1 ++ tr2)%list. simpl.
  now rewrite waits_app, W1, W2, app_assoc.
Qed.

Lemma locates_for_each {A} (f : A -> string) (l : list A) body :
  (forall x, locates [f x] (body x)) -> locates (map f l) (for_each l body).
Proof.
  intros Hb. induction l as [|x l IH]; simpl.
  - apply locates_ret.
  - change (f x :: map f l) with ([f x] ++ map f l)%list.
    apply locates_bind; auto.
Qed.

Lemma locates_attempts xs (m : M unit) : locates xs m -> attempts xs m.
Proof.
  intros Hm s. destruct (Hm s) as (tr & -> & W). exists tr. auto.
Qed.

Lemma attempts_bind_after xs ys {B} (m : M unit) (k : M B) :
  locates xs m -> attempts ys k -> attempts (xs ++ ys) (m ;; k).
Proof.
  intros Hm Hk s. unfold bind.
  destruct (Hm s) as (tr1 & -> & W1).
  destruct (Hk {| trace := (trace s ++ tr1)%list; t := t s |})
    as (tr2 & H2 & W2).
  exists (tr1 ++ tr2)%list. simpl in *.
  now rewrite H2, waits_app, W1, W2, app_assoc.
Qed.


Lemma attempts_none {A} (m : M A) :
  adds_only (fun c => negb (is_form_action c)) m -> attempts [] m.
Proof.
  intros Hm s. destruct (Hm s) as (tr & H & Hall).
  exists tr. split; [assumption|].
  clear H. induction tr as [|c tr IH]; [reflexivity|].
  simpl in Hall. apply andb_prop in Hall as [Hc Htr].
  destruct c; simpl in *; auto; discriminate.
Qed.

Hypothesis exceptions : only_Exceptions E.

(** Each step of an attempt is answered by a value or by an [Exception]. *)
Ltac answer :=
  match goal with
  | |- context [E ?h ?c] =>
      let H := fresh "H" in
      destruct (E h c) eqn:H; [|rewrite ?(exceptions _ _ _ H)]; simpl
  end.

Ltac attempted :=
  repeat match goal with
         | x : ret_type (Click _) |- _ => destruct x
         end;
  eexists; split; [rewrite <- ?app_assoc; simpl; reflexivity | reflexivity].

(** Lines 217-228: one wait, and the loop goes on. *)
Lemma fill_text_field_locates item :
  locates [fst item] (fill_text_field E self item).
Proof.
  destruct item as [input_locator value]. intros s.
  unfold fill_text_field, try_except, bind, perform, tell, ret, raise,
    record, could_not_fill.
  simpl. repeat answer;
    try (destruct (attr_is _ _); simpl; repeat answer);
    attempted.
Qed.

(** Lines 232-241. *)
Lemma fill_radio_field_locates input_locator :
  locates [input_locator] (fill_radio_field E self input_locator).
Proof.
  intros s.
  unfold fill_radio_field, try_except, bind, perform, tell, ret, record,
    could_not_fill.
  simpl. repeat answer;
    try (match goal with
         | b : ret_type (IsSelected _) |- _ => destruct b; simpl
         end; repeat answer);
    attempted.
Qed.

(** Lines 245-257. *)
Lemma fill_checkbox_field_locates input_locator :
  locates [input_locator] (fill_checkbox_field E self input_locator).
Proof.
  intros s.
  unfold fill_checkbox_field, try_except, bind, perform, tell, ret, record,
    could_not_fill.
  simpl. repeat answer;
    try (destruct (attr_is _ _); simpl; repeat answer);
    attempted.
Qed.

(** Lines 216-257: every locator of the mappings is waited for, in order,
    whatever the answers. *)
Lemma fill_fields_locates mp :
  locates (keys (text mp) ++ radio mp ++ checkbox mp)
    (fill_fields E self mp).
Proof.
  unfold fill_fields.
  apply locates_bind; [|apply locates_bind].
  - apply (locates_for_each fst). apply fill_text_field_locates.
  - rewrite <- (map_id (radio mp)) at 1.
    apply (locates_for_each (fun x => x)). apply fill_radio_field_locates.
  - rewrite <- (map_id (checkbox mp)) at 1.
    apply (locates_for_each (fun x => x)). apply fill_checkbox_field_locates.
Qed.



End Attempts.


Lemma world_only_Exceptions at_start at_review missing :
  only_Exceptions (Examples.world (Returns tt) at_start at_review missing).
Proof.
  intros h c e. destruct c; simpl; try discriminate.
  destruct (existsb _ missing); [|discriminate].
  intros H. injection H as <-. reflexivity.
Qed.


(* ========================================================================= *)
(** * Further properties of the compiler *)

Section Loops.

Variable exhaustive : bool.

Lemma dict_set_not_empty {V} (d : dict V) k v : dict_set d k v <> [].
Proof.
  destruct d as [|[k' v'] d]; simpl; [discriminate|].
  destruct (String.eqb k' k); discriminate.
Qed.

Lemma text_field_with_keys mp q m :
  types m <> None -> response m <> None ->
  exists mp', snd (text_field exhaustive mp q m) = Returns mp'.
Proof.
  intros Hty Hre. unfold text_field, insert_primary, apply_fallback.
  destruct (types m) as [tys|]; [|contradiction].
  destruct (response m) as [resp|]; [|contradiction].
  simpl. rewrite textarea_default.
  destruct (effective exhaustive m); [|eauto].
  destruct (popitem _) as [[mp' [key value]]|] eqn:P; [eauto|].
  apply popitem_none in P. now apply dict_set_not_empty in P.
Qed.

Lemma text_loop_with_keys fields :
  Forall (fun f => types (snd f) <> None /\ response (snd f) <> None) fields ->
  forall mp, exists mp', snd (text_loop exhaustive mp fields) = Returns mp'.
Proof.
  induction 1 as [|[q m] rest [Hty Hre] _ IH]; simpl; intros mp; [eauto|].
  destruct (text_field_with_keys mp q m Hty Hre) as [mp1 H1].
  destruct (text_field exhaustive mp q m) as [m' r]. simpl in H1. subst r.
  destruct (IH mp1) as [mp' H'].
  destruct (text_loop exhaustive mp1 rest) as [rest' r]. simpl in *. eauto.
Qed.

Lemma radio_loop_with_keys fields :
  Forall (fun f => choice (snd f) <> None) fields ->
  forall acc, exists rd, radio_loop acc fields = Returns rd.
Proof.
  induction 1 as [|[q m] rest Hc _ IH]; simpl; intros acc; [eauto|].
  simpl in Hc. destruct (choice m); [apply IH | contradiction].
Qed.

Lemma checkbox_loop_with_keys fields :
  Forall (fun f => choices (snd f) <> None) fields ->
  forall acc, exists cb, checkbox_loop acc fields = Returns cb.
Proof.
  induction 1 as [|[q m] rest Hc _ IH]; simpl; intros acc; [eauto|].
  simpl in Hc. destruct (choices m); [apply IH | contradiction].
Qed.

(** What the two choice loops return, from the choices alone. *)
Lemma radio_loop_returns fields : forall acc rd,
  radio_loop acc fields = Returns rd ->
  exists cs,
    map (fun f => choice (snd f)) fields = map Some cs
    /\ rd = (acc ++ map choice_xpath cs)%list.
Proof.
  induction fields as [|[q m] rest IH]; simpl; intros acc rd H.
  - injection H as <-. exists []. now rewrite app_nil_r.
  - destruct (choice m) as [c|]; [|discriminate].
    destruct (IH _ _ H) as (cs & Hcs & ->).
    exists (c :: cs). simpl. rewrite Hcs, <- app_assoc. auto.
Qed.

Lemma checkbox_loop_returns fields : forall acc cb,
  checkbox_loop acc fields = Returns cb ->
  exists css,
    map (fun f => choices (snd f)) fields = map Some css
    /\ cb = (acc ++ map choice_xpath (concat css))%list.
Proof.
  induction fields as [|[q m] rest IH]; simpl; intros acc cb H.
  - injection H as <-. exists []. now rewrite app_nil_r.
  - destruct (choices m) as [cs|]; [|discriminate].
    destruct (IH _ _ H) as (css & Hcss & ->).
    exists (cs :: css). simpl. rewrite Hcss, map_app, <- app_assoc. auto.
Qed.

(** *** The keys of the text mapping *)

Lemma in_keys_dict_set {V} (d : dict V) k v x :
  In x (keys (dict_set d k v)) -> x = k \/ In x (keys d).
Proof.
  unfold keys. intros H. apply in_map_iff in H as ([k0 v0] & <- & H).
  apply in_dict_set in H as [H|H].
  - injection H as -> _. now left.
  - right. now apply (in_map fst) in H.
Qed.

Lemma NoDup_keys_dict_set {V} (d : dict V) k v :
  NoDup (keys d) -> NoDup (keys (dict_set d k v)).
Proof.
  induction d as [|[k' v'] d IH]; simpl; intros H.
  - repeat constructor. intros [].
  - inversion H as [|? ? Hn Hd]; subst.
    destruct (String.eqb_spec k' k) as [->|Hne]; simpl.
    + now constructor.
    + constructor; [|auto].
      intros Hin. apply in_keys_dict_set in Hin as [->|Hin]; auto.
Qed.

Lemma NoDup_keys_popitem {V} (d d' : dict V) kv :
  popitem d = Some (d', kv) -> NoDup (keys d) -> NoDup (keys d').
Proof.
  intros P H. apply popitem_some in P. subst d.
  unfold keys in H. rewrite map_app in H.
  now apply NoDup_app_remove_r in H.
Qed.

Lemma text_field_keys_unique mp q m m' mp' :
  text_field exhaustive mp q m = (m', Returns mp') ->
  NoDup (keys mp) -> NoDup (keys mp').
Proof.
  intros F H. apply text_field_returns in F as (mp1 & Hi & Hf).
  assert (H1 : NoDup (keys mp1)).
  { unfold insert_primary in Hi.
    destruct (types m); [destruct (response m); [|discriminate]|];
      injection Hi as <-; auto using NoDup_keys_dict_set. }
  unfold apply_fallback in Hf.
  destruct (textarea _) as [[|]|]; try (now injection Hf as <-).
  destruct (popitem mp1) as [[mp2 [key value]]|] eqn:P; [|discriminate].
  injection Hf as <-.
  eauto using NoDup_keys_dict_set, NoDup_keys_popitem.
Qed.

Lemma text_loop_keys_unique fields : forall mp fields' mp',
  text_loop exhaustive mp fields = (fields', Returns mp') ->
  NoDup (keys mp) -> NoDup (keys mp').
Proof.
  induction fields as [|[q m] rest IH]; simpl; intros mp fields' mp' H Hn.
  - now injection H as _ <-.
  - destruct (text_field exhaustive mp q m) as [m' [mp1|e]] eqn:F;
      [|discriminate].
    destruct (text_loop exhaustive mp1 rest) as [rest' r] eqn:L.
    injection H as _ ->.
    eauto using text_field_keys_unique.
Qed.

(** *** The size of the text mapping *)

Lemma length_dict_set_le {V} (d : dict V) k v :
  length (dict_set d k v) <= S (length d).
Proof.
  induction d as [|[k' v'] d IH]; simpl; [lia|].
  destruct (String.eqb k' k); simpl; lia.
Qed.

Lemma text_field_length mp q m m' mp' :
  text_field exhaustive mp q m = (m', Returns mp') ->
  length mp' <= length mp + length (with_types [(q, m)]).
Proof.
  intros F. apply text_field_returns in F as (mp1 & Hi & Hf).
  assert (H1 : length mp1 <= length mp + length (with_types [(q, m)])).
  { unfold insert_primary in Hi. unfold with_types. simpl.
    destruct (types m) as [tys|].
    - destruct (response m) as [resp|]; [|discriminate].
      injection Hi as <-. simpl.
      pose proof (length_dict_set_le mp (input_xpath q tys) resp). lia.
    - injection Hi as <-. simpl. lia. }
  unfold apply_fallback in Hf.
  destruct (textarea _) as [[|]|]; try (injection Hf as <-; assumption).
  destruct (popitem mp1) as [[mp2 [key value]]|] eqn:P; [|discriminate].
  injection Hf as <-. apply popitem_some in P. subst mp1.
  rewrite length_app in H1. change (length [(key, value)]) with 1 in H1.
  pose proof (length_dict_set_le mp2 (union_xpath key q) value). lia.
Qed.

Lemma with_types_cons f fields :
  length (with_types (f :: fields))
  = length (with_types [f]) + length (with_types fields).
Proof.
  unfold with_types. simpl. destruct (types (snd f)); reflexivity.
Qed.

Lemma text_loop_length fields : forall mp fields' mp',
  text_loop exhaustive mp fields = (fields', Returns mp') ->
  length mp' <= length mp + length (with_types fields).
Proof.
  induction fields as [|[q m] rest IH]; intros mp fields' mp' H.
  - simpl in H. injection H as _ <-. simpl. lia.
  - simpl in H.
    destruct (text_field exhaustive mp q m) as [m' [mp1|e]] eqn:F;
      [|discriminate].
    destruct (text_loop exhaustive mp1 rest) as [rest' r] eqn:L.
    injection H as _ ->.
    apply text_field_length in F. apply IH in L.
    rewrite with_types_cons. lia.
Qed.

(** *** A second call, whatever its switch *)

(** An iteration on the field that an earlier iteration left does what the
    earlier one did, whatever the switch now. *)
Lemma text_field_sticks exhaustive' mp q m :
  text_field exhaustive' mp q (fst (text_field exhaustive mp q m))
  = text_field exhaustive mp q m.
Proof.
  destruct m as [[tys|] [resp|] [[|]|]];
    destruct exhaustive, exhaustive'; reflexivity.
Qed.

Lemma text_loop_sticks exhaustive' fields : forall mp,
  text_loop exhaustive' mp (fst (text_loop exhaustive mp fields))
  = text_loop exhaustive mp fields.
Proof.
  induction fields as [|[q m] rest IH]; simpl; intros mp; [reflexivity|].
  pose proof (text_field_sticks exhaustive' mp q m) as A.
  destruct (text_field exhaustive mp q m) as [m' [mp'|e]] eqn:F; simpl in A.
  - specialize (IH mp').
    destruct (text_loop exhaustive mp' rest) as [rest' r] eqn:L; simpl in *.
    rewrite A, IH. reflexivity.
  - simpl. rewrite A. reflexivity.
Qed.

End Loops.

(** When [create_mappings] returns, each part of the mappings is what its
    loop returned. *)
Lemma create_mappings_returns_parts self raw exhaustive m :
  result (create_mappings self raw exhaustive) = Returns m ->
  exists tf tf' rf cf,
    raw_text raw = Some tf
    /\ text_loop exhaustive [] tf = (tf', Returns (text m))
    /\ raw_radio raw = Some rf
    /\ radio_loop [] rf = Returns (radio m)
    /\ raw_checkbox raw = Some cf
    /\ checkbox_loop [] cf = Returns (checkbox m)
    /\ fallbacks m = []
    /\ rawdata_after (create_mappings self raw exhaustive) = with_text raw tf'
    /\ Compile.self_after (create_mappings self raw exhaustive)
       = {| mappings := Some m; url := Some (raw_url raw); WAIT := WAIT self |}.
Proof.
  unfold create_mappings.
  destruct (raw_text raw) as [tf|]; simpl; [|discriminate].
  destruct (text_loop exhaustive [] tf) as [tf' [t|e]] eqn:L; simpl;
    [|discriminate].
  destruct (raw_radio raw) as [rf|]; simpl; [|discriminate].
  destruct (radio_loop [] rf) as [rd|e] eqn:R; simpl; [|discriminate].
  destruct (raw_checkbox raw) as [cf|]; simpl; [|discriminate].
  destruct (checkbox_loop [] cf) as [cb|e] eqn:C; simpl; [|discriminate].
  intros H. injection H as <-. simpl. exists tf, tf', rf, cf. auto 10.
Qed.

(** X1.  A form data that has its three categories, ['types'] and
    ['response'] in every text field, ['choice'] in every radio field and
    ['choices'] in every checkbox field always compiles: [create_mappings]
    returns mappings, whatever the switch and the flags, and stores them and
    the url of the form data on the object. *)
Theorem form_data_with_all_keys_compiles (self : GForm) (raw : rawdata)
    (exhaustive : bool) :
  has_all_keys raw ->
  exists m,
    result (create_mappings self raw exhaustive) = Returns m
    /\ Compile.self_after (create_mappings self raw exhaustive)
       = {| mappings := Some m; url := Some (raw_url raw); WAIT := WAIT self |}.
Proof.
  intros ((tf & Ht & Htf) & (rf & Hr & Hrf) & (cf & Hc & Hcf)).
  destruct (text_loop_with_keys exhaustive tf Htf []) as [t Hl].
  destruct (radio_loop_with_keys rf Hrf []) as [rd Hrd].
  destruct (checkbox_loop_with_keys cf Hcf []) as [cb Hcb].
  unfold create_mappings. rewrite Ht, Hr, Hc.
  destruct (text_loop exhaustive [] tf) as [tf' r]. simpl in Hl. subst r.
  rewrite Hrd, Hcb. simpl. eauto.
Qed.

Lemma form_data_with_all_keys_compiles_witness :
  exists m,
    result (create_mappings init Script.form_data true) = Returns m
    /\ Compile.self_after (create_mappings init Script.form_data true)
       = {| mappings := Some m; url := Some None; WAIT := 5 |}.
Proof.
  apply (form_data_with_all_keys_compiles init Script.form_data true).
  repeat split.
  - eexists. split; [reflexivity|].
    repeat constructor; discriminate.
  - eexists. split; [reflexivity|]. repeat constructor; discriminate.
  - eexists. split; [reflexivity|]. repeat constructor; discriminate.
Defined.

(** X2.  When [create_mappings] returns, the radio mapping has one X-path
    per radio field, in the order of the fields: the X-path of the label of
    the option that ['choice'] names.  The label of the field and
    ['choice_num'] play no part. *)
Theorem radio_mapping_in_field_order (self : GForm) (raw : rawdata)
    (exhaustive : bool) (m : Mappings) :
  result (create_mappings self raw exhaustive) = Returns m ->
  exists fields cs,
    raw_radio raw = Some fields
    /\ map (fun f => choice (snd f)) fields = map Some cs
    /\ radio m
       = map (fun c => "//span[contains(text(), " ++ dq ++ c ++ dq
                         ++ ")]/../../../../..//label") cs.
Proof.
  intros H.
  apply create_mappings_returns_parts in H
    as (tf & tf' & rf & cf & _ & _ & Hr & Hrl & _).
  apply radio_loop_returns in Hrl as (cs & Hcs & Hrd).
  exists rf, cs. auto.
Qed.

Lemma radio_mapping_in_field_order_witness :
  exists fields cs,
    raw_radio Script.form_data = Some fields
    /\ map (fun f => choice (snd f)) fields = map Some cs
    /\ radio Samples.script_mappings
       = map (fun c => "//span[contains(text(), " ++ dq ++ c ++ dq
                         ++ ")]/../../../../..//label") cs.
Proof.
  exact (radio_mapping_in_field_order init Script.form_data false
           Samples.script_mappings eq_refl).
Defined.

(** X3.  When [create_mappings] returns, the checkbox mapping is the
    X-paths of the labels of all the ['choices'] of the checkbox fields,
    field after field and, within a field, in the order of its choices. *)
Theorem checkbox_mapping_in_choice_order (self : GForm) (raw : rawdata)
    (exhaustive : bool) (m : Mappings) :
  result (create_mappings self raw exhaustive) = Returns m ->
  exists fields css,
    raw_checkbox raw = Some fields
    /\ map (fun f => choices (snd f)) fields = map Some css
    /\ checkbox m
       = map (fun c => "//span[contains(text(), " ++ dq ++ c ++ dq
                         ++ ")]/../../../../..//label") (concat css).
Proof.
  intros H.
  apply create_mappings_returns_parts in H
    as (tf & tf' & rf & cf & _ & _ & _ & _ & Hc & Hcl & _).
  apply checkbox_loop_returns in Hcl as (css & Hcss & Hcb).
  exists cf, css. auto.
Qed.

Lemma checkbox_mapping_in_choice_order_witness :
  exists fields css,
    raw_checkbox Script.form_data = Some fields
    /\ map (fun f => choices (snd f)) fields = map Some css
    /\ checkbox Samples.script_mappings
       = map (fun c => "//span[contains(text(), " ++ dq ++ c ++ dq
                         ++ ")]/../../../../..//label") (concat css).
Proof.
  exact (checkbox_mapping_in_choice_order init Script.form_data false
           Samples.script_mappings eq_refl).
Defined.

(** X4.  The keys of the text mapping that [create_mappings] returns are
    pairwise distinct, whatever the labels: an assignment to a key that is
    there replaces its value, and the fallback puts one key in the place of
    another. *)
Theorem text_mapping_keys_are_distinct (self : GForm) (raw : rawdata)
    (exhaustive : bool) (m : Mappings) :
  result (create_mappings self raw exhaustive) = Returns m ->
  NoDup (keys (text m)).
Proof.
  intros H.
  apply create_mappings_returns_parts in H as (tf & tf' & rf & cf & _ & Hl & _).
  eapply text_loop_keys_unique; [exact Hl | constructor].
Qed.

Lemma text_mapping_keys_are_distinct_witness :
  NoDup (keys (text Samples.script_mappings)).
Proof.
  exact (text_mapping_keys_are_distinct init Script.form_data false
           Samples.script_mappings eq_refl).
Defined.

(** X5.  When [create_mappings] returns, every entry of the text mapping
    comes from a text field that has ['types']: its value is that field's
    response and its key starts with that field's input X-path.  There are
    no more entries than such fields. *)
Theorem text_entries_come_from_fields (self : GForm) (raw : rawdata)
    (exhaustive : bool) (m : Mappings) (fields : dict text_meta) :
  result (create_mappings self raw exhaustive) = Returns m ->
  raw_text raw = Some fields ->
  (forall entry, In entry (text m) -> comes_from fields entry)
  /\ length (text m) <= length (with_types fields).
Proof.
  intros H Hraw.
  apply create_mappings_returns_parts in H as (tf & tf' & rf & cf & Ht & Hl & _).
  rewrite Hraw in Ht. injection Ht as <-. split.
  - intros entry He.
    apply (text_loop_comes_from exhaustive fields [] [] tf' (text m) Hl);
      [intros ? []| exact He].
  - apply (text_loop_length exhaustive fields [] tf' (text m) Hl).
Qed.

Lemma text_entries_come_from_fields_witness :
  (forall entry, In entry (text Samples.own_flags_mappings) ->
     comes_from (items (raw_text Samples.own_flags)) entry)
  /\ length (text Samples.own_flags_mappings)
     <= length (with_types (items (raw_text Samples.own_flags))).
Proof.
  exact (text_entries_come_from_fields init Samples.own_flags false
           Samples.own_flags_mappings _ eq_refl eq_refl).
Defined.

(** X6.  A ['textarea'] key of the field's own wins over the switch.  With
    ['types'] in every text field and pairwise distinct locators, a field
    whose ['textarea'] is true gets its input X-path, [ | ] and the textarea
    X-path of its label also when the switch is off, and a field whose
    ['textarea'] is false gets its input X-path alone also when the switch
    is on; either way at its own position, with its response. *)
Theorem own_textarea_flag_wins (self : GForm) (raw : rawdata)
    (exhaustive : bool) (fields : dict text_meta) (m : Mappings) :
  raw_text raw = Some fields ->
  Forall (fun f => types (snd f) <> None) fields ->
  NoDup (concat (map locators fields)) ->
  result (create_mappings self raw exhaustive) = Returns m ->
  forall i q meta b,
    nth_error fields i = Some (q, meta) ->
    textarea meta = Some b ->
    exists tys resp,
      types meta = Some tys
      /\ response meta = Some resp
      /\ nth_error (text m) i
         = Some (if b
                 then ("//span[contains(text(), " ++ dq ++ q ++ dq
                         ++ ")]/../../../..//input["
                         ++ String.concat " or "
                              (map (fun ty => "@type=" ++ dq ++ ty ++ dq) tys)
                         ++ "]")
                        ++ " | "
                        ++ "//span[contains(text(), " ++ dq ++ q ++ dq
                        ++ ")]/../../../..//textarea"
                 else "//span[contains(text(), " ++ dq ++ q ++ dq
                        ++ ")]/../../../..//input["
                        ++ String.concat " or "
                             (map (fun ty => "@type=" ++ dq ++ ty ++ dq) tys)
                        ++ "]",
                 resp).
Proof.
  intros Hraw Hty Hnd Hres i q meta b Hi Hta.
  apply create_mappings_returns_parts in Hres
    as (tf & tf' & rf & cf & Ht & Hl & _).
  rewrite Hraw in Ht. injection Ht as <-.
  destruct (text_loop_entries exhaustive fields [] tf' (text m) Hl Hty Hnd)
    as (entries & He & Hall); [intros k []|].
  simpl in He. rewrite He.
  destruct (Forall2_nth_error_l _ _ _ Hall i (q, meta) Hi)
    as ([k v] & Hn & Hc).
  unfold compiled_entry, effective in Hc. cbn [fst snd] in Hc.
  rewrite Hta in Hc.
  destruct (types meta) as [tys|]; [|discriminate].
  destruct (response meta) as [resp|]; [|discriminate].
  injection Hc as <- <-. exists tys, resp.
  split; [reflexivity|]. split; [reflexivity|].
  rewrite Hn. destruct b; reflexivity.
Qed.

Lemma own_textarea_flag_wins_witness :
  nth_error (text Samples.own_flags_mappings) 0
  = Some ("//span[contains(text(), " ++ dq ++ "Bio" ++ dq
            ++ ")]/../../../..//input[@type=" ++ dq ++ "text" ++ dq
            ++ "] | //span[contains(text(), " ++ dq ++ "Bio" ++ dq
            ++ ")]/../../../..//textarea",
          "I write proofs.").
Proof.
  assert (Hty : Forall (fun f => types (snd f) <> None)
                  (items (raw_text Samples.own_flags))).
  { repeat constructor; discriminate. }
  assert (Hnd : NoDup (concat (map locators
                                 (items (raw_text Samples.own_flags))))).
  { apply quote_free_labels_distinct_locators.
    - simpl. repeat constructor; simpl; intuition discriminate.
    - repeat constructor. }
  destruct (own_textarea_flag_wins init Samples.own_flags false
              (items (raw_text Samples.own_flags))
              Samples.own_flags_mappings eq_refl Hty Hnd eq_refl
              0 "Bio"
              {| types := Some ["text"]; response := Some "I write proofs.";
                 textarea := Some true |} true eq_refl eq_refl)
    as (tys & resp & Ht & Hr & Hn).
  simpl in Ht, Hr. injection Ht as <-. injection Hr as <-. exact Hn.
Defined.

(** X8.  The switch of the first call sticks.  A second [create_mappings]
    on the same form data gives what the first call gave, the same mappings
    or the same exception, whatever the switch of the second call: the
    defaults that the first call wrote into the text fields decide. *)
Theorem first_switch_sticks (self self' : GForm) (raw : rawdata)
    (exhaustive exhaustive' : bool) :
  let first := create_mappings self raw exhaustive in
  let second := create_mappings self' (rawdata_after first) exhaustive' in
  result second = result first
  /\ rawdata_after second = rawdata_after first.
Proof.
  unfold create_mappings.
  destruct (raw_text raw) as [fields|] eqn:T; simpl.
  2:{ rewrite T. auto. }
  pose proof (text_loop_sticks exhaustive exhaustive' fields []) as A.
  destruct (text_loop exhaustive [] fields) as [fields' [t|e]] eqn:L;
    simpl in A.
  - destruct (raw_radio raw) as [rfields|] eqn:Rr; simpl.
    2:{ rewrite A, Rr. auto. }
    destruct (radio_loop [] rfields) as [rd|e] eqn:R; simpl.
    2:{ rewrite A, Rr, R. auto. }
    destruct (raw_checkbox raw) as [cfields|] eqn:Cr; simpl.
    2:{ rewrite A, Rr, R, Cr. auto. }
    destruct (checkbox_loop [] cfields) as [cb|e] eqn:C; simpl;
      rewrite A, Rr, R, Cr, C; auto.
  - simpl. rewrite A. auto.
Qed.

(* ========================================================================= *)
(** * Further properties of the fill engine *)

(** ** The pattern of line 193 *)

Section Pattern.

Lemma strip_prefix_some p : forall s rest,
  strip_prefix p s = Some rest <-> s = p ++ rest.
Proof.
  induction p as [|a p IH]; intros [|b s] rest; simpl.
  - split; intros H; [now injection H as <- | now subst].
  - split; intros H; [now injection H as <- | now subst].
  - split; discriminate.
  - destruct (Ascii.eqb_spec a b) as [->|Hne].
    + rewrite IH. split; intros H; [now subst | now injection H].
    + split; [discriminate|]. intros H. congruence.
Qed.

Lemma dot_star_end_iff rest :
  dot_star_end rest = true
  <-> no_newline rest = true
      \/ exists line,
           rest = line ++ String newline EmptyString
           /\ no_newline line = true.
Proof.
  induction rest as [|c rest IH]; simpl.
  - split; auto.
  - destruct (Ascii.eqb_spec c newline) as [->|Hne]; simpl.
    + destruct rest as [|c' rest]; split; intros H; try discriminate.
      * right. exists EmptyString. auto.
      * reflexivity.
      * destruct H as [H|(line & Hl & Hn)]; [discriminate|].
        destruct line as [|d line]; simpl in Hl; [discriminate|].
        injection Hl as <- _. simpl in Hn.
        rewrite ?Ascii.eqb_refl in Hn. discriminate.
    + rewrite IH. split; intros [H|(line & Hl & Hn)]; auto.
      * right. exists (String c line). simpl. subst rest.
        apply Ascii.eqb_neq in Hne. rewrite Hne. auto.
      * right. destruct line as [|d line]; simpl in Hl.
        { injection Hl as -> _. contradiction. }
        injection Hl as <- ->. simpl in Hn.
        apply andb_prop in Hn as [_ Hn]. eauto.
Qed.

End Pattern.

(** X9.  The url passes the second assertion exactly when it starts with
    [https://] and what follows holds no line feed, but for one that ends
    the url: [http://], an empty host part with a line break inside and the
    like are turned down. *)
Theorem https_pattern (s : string) :
  re_match_https s = true
  <-> exists rest,
        s = "https://" ++ rest
        /\ (no_newline rest = true
            \/ exists line,
                 rest = line ++ String newline EmptyString
                 /\ no_newline line = true).
Proof.
  unfold re_match_https. split.
  - destruct (strip_prefix "https://" s) as [rest|] eqn:P; [|discriminate].
    intros H. exists rest. split.
    + now apply strip_prefix_some.
    + now apply dot_star_end_iff.
  - intros (rest & Hs & H). apply strip_prefix_some in Hs. rewrite Hs.
    now apply dot_star_end_iff.
Qed.

(** ** What every part of [fill] adds to the calls and does to [t] *)

Section Parts.

Variable E : env.
Variable self : GForm.
Variable a : fill_args.

Lemma keeps_t_ret {A} (x : A) : keeps_t (ret x).
Proof. intros s. reflexivity. Qed.

Lemma keeps_t_raise {A} e : keeps_t (@raise A e).
Proof. intros s. reflexivity. Qed.

Lemma keeps_t_perform c : keeps_t (perform E c).
Proof. intros s. reflexivity. Qed.

Lemma keeps_t_tell c : keeps_t (tell c).
Proof. intros s. reflexivity. Qed.

Lemma keeps_t_bind {A B} (m : M A) (k : A -> M B) :
  keeps_t m -> (forall x, keeps_t (k x)) -> keeps_t (bind m k).
Proof.
  intros Hm Hk s. unfold bind. specialize (Hm s).
  destruct (m s) as [s1 [x|e]]; simpl in *; [|assumption].
  now rewrite Hk.
Qed.

Lemma keeps_t_if {A} (b : bool) (m1 m2 : M A) :
  keeps_t m1 -> keeps_t m2 -> keeps_t (if b then m1 else m2).
Proof. destruct b; auto. Qed.

(** Lines 197-213 do not assign [t]. *)
Lemma open_form_keeps_t u : keeps_t (open_form E self a u).
Proof.
  unfold open_form.
  repeat first
    [ apply keeps_t_bind; [|intros ?]
    | apply keeps_t_if
    | apply keeps_t_ret
    | apply keeps_t_perform
    | match goal with
      | |- @keeps_t _ (perform ?E0 ?c) =>
          change (@keeps_t (ret_type c) (perform E0 c));
          apply keeps_t_perform
      end ].
Qed.

Lemma adds_only_for_each_in (P : call -> bool) {A} (l : list A) body :
  (forall x, In x l -> adds_only P (body x)) ->
  adds_only P (for_each l body).
Proof.
  induction l as [|x l IH]; simpl; intros Hb.
  - apply adds_only_ret.
  - apply adds_only_bind; [apply Hb; now left|].
    intros _. apply IH. intros y Hy. apply Hb. now right.
Qed.

Lemma existsb_eqb_in x l : In x l -> existsb (String.eqb x) l = true.
Proof.
  intros H. apply existsb_exists. exists x. split; [assumption|].
  apply String.eqb_refl.
Qed.

End Parts.

(** A statement built from the parts of [fill] adds only calls that satisfy
    [P], when [side] shows that each of its calls does. *)
Ltac adds_only_with side :=
  repeat first
    [ apply adds_only_bind; [|intros ?]
    | apply adds_only_if
    | apply adds_only_ret
    | apply adds_only_raise
    | apply adds_only_set_t
    | apply adds_only_tell; side
    | match goal with
      | |- @adds_only ?Q _ (perform ?E0 ?c) =>
          change (@adds_only Q (ret_type c) (perform E0 c));
          apply adds_only_perform; side
      | |- adds_only _ (match ?x with _ => _ end) => destruct x
      end
    | apply adds_only_try_except; [|intros ?] ].

Section Opening.

Variable E : env.
Variable self : GForm.
Variable a : fill_args.

(** Lines 197-213 wait for nothing but the clear button, and for that only
    when asked to. *)
Lemma open_form_waits u :
  adds_only
    (waits_within (WAIT self) (if clear a then [clear_xpath] else []))
    (open_form E self a u).
Proof.
  unfold open_form.
  destruct (clear a);
    adds_only_with
      ltac:(first [ reflexivity
                  | unfold waits_within; rewrite Z.eqb_refl; simpl;
                    rewrite ?String.eqb_refl; reflexivity ]).
Qed.

(** The first call of lines 197-213 is the navigation. *)
Lemma open_form_starts_with_get u s :
  exists tr, trace (fst (open_form E self a u s)) = (trace s ++ Get u :: tr)%list.
Proof.
  unfold open_form. unfold bind at 1. unfold perform at 1.
  destruct (E (trace s) (Get u)) as [[]|e].
  - cbv beta.
    match goal with
    | |- context [fst (?k (record (Get u) s))] =>
        assert (H : adds_only (fun _ => true) k)
    end.
    { adds_only_with reflexivity. }
    destruct (H (record (Get u) s)) as (tr & Htr & _).
    exists tr. etransitivity; [exact Htr|]. simpl. now rewrite <- app_assoc.
  - exists []. reflexivity.
Qed.

Lemma fill_and_submit_adds start :
  adds_only (fun _ => true) (fill_and_submit E self a start).
Proof.
  unfold fill_and_submit, read_mappings, fill_fields, handle_submit.
  adds_only_with reflexivity;
    repeat first
      [ apply adds_only_for_each; intros ?
      | match goal with
        | |- adds_only _ (fill_text_field _ _ ?i) =>
            destruct i; unfold fill_text_field
        | |- adds_only _ (fill_radio_field _ _ _) => unfold fill_radio_field
        | |- adds_only _ (fill_checkbox_field _ _ _) =>
            unfold fill_checkbox_field
        end
      | progress adds_only_with reflexivity ].
Qed.

(** The calls of a [try] block start with the navigation and end with
    [driver.quit()]. *)
Lemma guarded_starts_with_get u :
  exists tr,
    trace (fst (guarded E self a u at_entry)) = (Get u :: tr)%list.
Proof.
  unfold guarded, try_except, try_body. unfold bind at 1.
  destruct (open_form_starts_with_get u at_entry) as (tr & Htr).
  destruct (open_form E self a u at_entry) as [s1 [[start|]|e]];
    simpl in Htr.
  - destruct (fill_and_submit_adds start s1) as (tr2 & H2 & _).
    destruct (fill_and_submit E self a start s1) as [s2 [[]|e]]; simpl in H2.
    + simpl. rewrite H2, Htr. eexists. simpl. reflexivity.
    + destruct (is_Exception e); simpl; rewrite H2, Htr; eexists; simpl;
        reflexivity.
  - simpl. rewrite Htr. eexists. simpl. reflexivity.
  - destruct (is_Exception e); simpl; rewrite Htr; eexists; simpl;
      reflexivity.
Qed.

End Opening.

(** Line 191 changes nothing of the object but [url]. *)
Lemma passes_assertions_keeps self a self1 u :
  passes_assertions self a = Some (self1, u) ->
  mappings self1 = mappings self /\ WAIT self1 = WAIT self
  /\ url self1 = Some (Some u)
  /\ truthy (Some u) = true /\ re_match_https u = true.
Proof.
  unfold passes_assertions, assign_url.
  destruct (truthy (arg_url a)).
  - cbn [url]. destruct (arg_url a) as [u0|]; [|discriminate].
    destruct (truthy (Some u0)) eqn:T; [|discriminate].
    destruct (re_match_https u0) eqn:R; [|discriminate].
    cbn [andb]. intros H. injection H as <- <-. cbn. auto.
  - destruct (url self) as [o|] eqn:U; [|discriminate].
    rewrite U. destruct o as [u0|]; [|discriminate].
    destruct (truthy (Some u0)) eqn:T; [|discriminate].
    destruct (re_match_https u0) eqn:R; [|discriminate].
    cbn [andb]. intros H. injection H as <- <-. auto.
Qed.

Lemma fill_starts_with_get E self a self1 u :
  passes_assertions self a = Some (self1, u) ->
  self_left (fill E self a) = self1
  /\ exists rest, calls (fill E self a) = Get u :: rest.
Proof.
  intros H. rewrite (fill_passes E _ _ _ _ H).
  destruct (guarded_starts_with_get E self1 a u) as (tr & Htr).
  destruct (guarded E self1 a u at_entry) as [s r]. simpl in *. eauto.
Qed.

Section Steps.

Lemma waits_within_in w xs tr :
  forallb (waits_within w xs) tr = true ->
  forall x, In x (waits tr) -> In x xs.
Proof.
  induction tr as [|c tr IH]; simpl; [intros _ x []|].
  intros H. apply andb_prop in H as [Hc Htr].
  destruct c; simpl in *; auto.
  apply andb_prop in Hc as [_ Hc].
  apply existsb_exists in Hc as (y & Hy & Heq).
  apply String.eqb_eq in Heq. subst y.
  intros x [<-|Hx]; auto.
Qed.

End Steps.

(** ** The url *)

(** X10.  After a [create_mappings] that returned, on a form data whose
    ['url'] is not empty and matches the pattern, a [fill] without a url
    argument navigates to that url before anything else, and works with the
    mappings that [create_mappings] returned. *)
Theorem fill_navigates_to_url_of_form_data (E : env) (self : GForm)
    (raw : rawdata) (exhaustive : bool) (m : Mappings) (a : fill_args)
    (u : string) :
  result (create_mappings self raw exhaustive) = Returns m ->
  raw_url raw = Some u ->
  truthy (Some u) = true ->
  re_match_https u = true ->
  truthy (arg_url a) = false ->
  let self1 := Compile.self_after (create_mappings self raw exhaustive) in
  mappings (self_left (fill E self1 a)) = Some m
  /\ exists rest, calls (fill E self1 a) = Get u :: rest.
Proof.
  intros Hres Hurl Ht Hre Ha self1.
  apply create_mappings_returns_parts in Hres
    as (tf & tf' & rf & cf & _ & _ & _ & _ & _ & _ & _ & _ & Hself).
  assert (Hp : passes_assertions self1 a = Some (self1, u)).
  { unfold passes_assertions, assign_url. unfold self1. rewrite Ha, Hself.
    cbn [url]. rewrite Hurl, Ht, Hre. reflexivity. }
  destruct (fill_starts_with_get E self1 a self1 u Hp) as [Hl Hc].
  rewrite Hl. split; [|exact Hc]. unfold self1. now rewrite Hself.
Qed.

Lemma fill_navigates_to_url_of_form_data_witness :
  let E := Examples.world (Returns tt) EmptyString EmptyString [] in
  let self1 := Compile.self_after
                 (create_mappings init Samples.own_flags false) in
  mappings (self_left (fill E self1 default_args))
  = Some Samples.own_flags_mappings
  /\ exists rest,
       calls (fill E self1 default_args)
       = Get "https://forms.gle/z6wBJuZgUuUfbvzV7" :: rest.
Proof.
  intros E self1.
  exact (fill_navigates_to_url_of_form_data E init Samples.own_flags false
           Samples.own_flags_mappings default_args
           "https://forms.gle/z6wBJuZgUuUfbvzV7"
           eq_refl eq_refl eq_refl eq_refl eq_refl).
Defined.

(** X11.  A url argument that is not empty and matches the pattern is the
    url that [fill] navigates to, whatever url the object held, and it stays
    on the object: a later [fill] without a url argument navigates to it
    again. *)
Theorem url_argument_is_used_and_kept (E E' : env) (self : GForm)
    (a a' : fill_args) (u : string) :
  arg_url a = Some u ->
  truthy (Some u) = true ->
  re_match_https u = true ->
  truthy (arg_url a') = false ->
  url (self_left (fill E self a)) = Some (Some u)
  /\ (exists rest, calls (fill E self a) = Get u :: rest)
  /\ (exists rest,
        calls (fill E' (self_left (fill E self a)) a') = Get u :: rest).
Proof.
  intros Ha Ht Hre Ha'.
  pose (self1 := {| mappings := mappings self; url := Some (Some u);
                    WAIT := WAIT self |}).
  assert (Hp : passes_assertions self a = Some (self1, u)).
  { unfold passes_assertions, assign_url. rewrite Ha, Ht. cbn [url].
    rewrite Ht, Hre. reflexivity. }
  assert (Hp' : passes_assertions self1 a' = Some (self1, u)).
  { unfold passes_assertions, assign_url. rewrite Ha'. cbn [url self1].
    rewrite Ht, Hre. reflexivity. }
  destruct (fill_starts_with_get E self a self1 u Hp) as [Hl Hc].
  rewrite Hl. split; [reflexivity|]. split; [exact Hc|].
  apply (fill_starts_with_get E' self1 a' self1 u Hp').
Qed.

Lemma url_argument_is_used_and_kept_witness :
  let E := Examples.world (Returns tt) EmptyString EmptyString [] in
  url (self_left (fill E init Script.args)) = Some (Some Script.form_url)
  /\ (exists rest, calls (fill E init Script.args) = Get Script.form_url :: rest)
  /\ (exists rest,
        calls (fill E (self_left (fill E init Script.args)) default_args)
        = Get Script.form_url :: rest).
Proof.
  intros E.
  exact (url_argument_is_used_and_kept E E init Script.args default_args
           Script.form_url eq_refl eq_refl eq_refl eq_refl).
Defined.

(** ** Runs that stop early *)

(** X12.  When lines 197-213 raise (the navigation, the pause, the first
    prompt, the clock, or the wait for the clear button or the click on it),
    the run is over: an instance of [Exception] is logged as an error, the
    session is quit and [fill] returns [-1].  No field was located: the only
    X-path that such a run can have waited for is that of the clear button,
    when a clear was asked for.  A missing clear button thus stops the whole
    run. *)
Theorem opening_failure_aborts (E : env) (self self1 : GForm)
    (a : fill_args) (u : string) (s1 : frame) (e : exn) :
  passes_assertions self a = Some (self1, u) ->
  open_form E self1 a u at_entry = (s1, Raises e) ->
  returned (fill E self a) = Returns not_completed
  /\ calls (fill E self a)
     = (trace s1
          ++ (if is_Exception e
              then [Log ERROR ("An error occurred: " ++ str_exn e)]
              else [])
          ++ [Quit])%list
  /\ forall x, In x (waits (calls (fill E self a))) ->
       clear a = true /\ x = clear_xpath.
Proof.
  intros Hp Hopen. rewrite (fill_passes E _ _ _ _ Hp).
  pose proof (open_form_keeps_t E self1 a u at_entry) as Ht.
  destruct (open_form_waits E self1 a u at_entry) as (tr & Htr & Hw).
  rewrite Hopen in Ht, Htr. simpl in Ht, Htr.
  unfold guarded, try_except, try_body.
  rewrite (bind_raises _ _ _ _ _ Hopen).
  assert (Hin : forall x, In x (waits (trace s1)) ->
                  clear a = true /\ x = clear_xpath).
  { intros x Hx. rewrite Htr in Hx.
    apply (waits_within_in _ _ _ Hw) in Hx.
    destruct (clear a); [|destruct Hx].
    destruct Hx as [<-|[]]. auto. }
  destruct (is_Exception e); simpl; rewrite Ht;
    (split; [reflexivity|]); (split; [now rewrite <- ?app_assoc|]);
    intros x Hx; rewrite !waits_app in Hx; simpl in Hx;
    rewrite ?app_nil_r in Hx; auto.
Qed.

Lemma opening_failure_aborts_witness :
  let E := Examples.world (Returns tt) EmptyString EmptyString [clear_xpath] in
  let self := Compile.self_after
                (create_mappings init Script.form_data false) in
  let a := {| arg_url := Some Script.form_url; submit := true;
              interactive := false; review_before_submit := false;
              clear := true |} in
  returned (fill E self a) = Returns not_completed
  /\ calls (fill E self a)
     = ([Get Script.form_url; Sleep 0.5%float; Time;
         WaitClickable 5 clear_xpath]
          ++ [Log ERROR ("An error occurred: " ++ "Message: ")]
          ++ [Quit])%list
  /\ forall x, In x (waits (calls (fill E self a))) ->
       true = true /\ x = clear_xpath.
Proof.
  intros E self a.
  exact (opening_failure_aborts E self _ a Script.form_url
           {| trace := [Get Script.form_url; Sleep 0.5%float; Time;
                        WaitClickable 5 clear_xpath];
              t := not_completed |}
           (OtherException "TimeoutException" "Message: ")
           eq_refl eq_refl).
Defined.

(** X16.  A [fill] on an object on which [create_mappings] never ran, given
    a url that passes: the page is opened (and cleared, if asked), then the
    lookup of [self.mappings] raises an AttributeError, which is logged; the
    session is quit and [fill] returns [-1] without having located a
    field. *)
Theorem fill_before_create_mappings (E : env) (self self1 : GForm)
    (a : fill_args) (u : string) (s1 : frame) (start : float) :
  mappings self = None ->
  passes_assertions self a = Some (self1, u) ->
  open_form E self1 a u at_entry = (s1, Returns (Some start)) ->
  returned (fill E self a) = Returns not_completed
  /\ calls (fill E self a)
     = (trace s1
          ++ [Log ERROR ("An error occurred: "
                         ++ "'GForm' object has no attribute 'mappings'");
              Quit])%list.
Proof.
  intros Hm Hp Hopen. rewrite (fill_passes E _ _ _ _ Hp).
  destruct (passes_assertions_keeps _ _ _ _ Hp) as (Hm1 & _).
  rewrite Hm in Hm1.
  pose proof (open_form_keeps_t E self1 a u at_entry) as Ht.
  rewrite Hopen in Ht. simpl in Ht.
  unfold guarded, try_except, try_body.
  rewrite (bind_returns _ _ _ _ _ Hopen).
  unfold fill_and_submit, read_mappings. rewrite Hm1.
  unfold bind, raise, tell, record. simpl. rewrite Ht.
  split; [reflexivity|]. now rewrite <- app_assoc.
Qed.

Lemma fill_before_create_mappings_witness :
  let E := Examples.world (Returns tt) EmptyString EmptyString [] in
  returned (fill E init Script.args) = Returns not_completed
  /\ calls (fill E init Script.args)
     = ([Get Script.form_url; Sleep 0.5%float; Time]
          ++ [Log ERROR ("An error occurred: "
                         ++ "'GForm' object has no attribute 'mappings'");
              Quit])%list.
Proof.
  intros E.
  exact (fill_before_create_mappings E init _ Script.args Script.form_url
           {| trace := [Get Script.form_url; Sleep 0.5%float; Time];
              t := not_completed |}
           (PrimFloat.of_uint63 (Uint63.of_nat 2))
           eq_refl eq_refl eq_refl).
Defined.

(** ** Submit and the value returned *)

Section Submit.

Variable E : env.
Variable self : GForm.
Variable a : fill_args.

(** Lines 262-271 when the submit button never becomes clickable. *)
Lemma handle_submit_fails s :
  submit a = true ->
  (review_before_submit a && interactive a = true -> confirms_review E) ->
  (forall h, exists e,
     E h (WaitClickable (WAIT self) submit_xpath) = Raises e) ->
  exists tr e,
    handle_submit E self a s
    = ({| trace := (trace s ++ tr
                      ++ [WaitClickable (WAIT self) submit_xpath])%list;
          t := t s |}, Raises e)
    /\ waits tr = []
    /\ E (trace s ++ tr)%list (WaitClickable (WAIT self) submit_xpath)
       = Raises e.
Proof.
  intros Hs Hrev Hno. unfold handle_submit. rewrite Hs.
  unfold bind, perform, ret, record.
  destruct (review_before_submit a && interactive a).
  - destruct (Hrev eq_refl (trace s)) as (answer & Ha & Hq).
    rewrite Ha, Hq. simpl.
    destruct (Hno (trace s ++ [Input review_prompt])%list) as [e He].
    rewrite He. exists [Input review_prompt], e.
    rewrite <- app_assoc. auto.
  - simpl. destruct (Hno (trace s)) as [e He]. rewrite He.
    exists [], e. rewrite app_nil_r. auto.
Qed.

(** Lines 262-266 when the operator answers [q] at the review prompt. *)
Lemma handle_submit_cancelled s :
  submit a = true -> review_before_submit a = true -> interactive a = true ->
  (forall h, E h (Input review_prompt) = Returns "q") ->
  handle_submit E self a s
  = ({| trace := (trace s ++ [Input review_prompt])%list; t := t s |},
     Returns tt).
Proof.
  intros Hs Hr Hi Hq. unfold handle_submit. rewrite Hs, Hr, Hi.
  unfold bind, perform, ret, record. simpl. rewrite Hq. reflexivity.
Qed.

End Submit.

(** X13.  When the fields were gone through and the submit button does not
    become clickable, the run ends as not completed: every entry of the
    mappings was located, the submit button was waited for, the error is
    logged, the session is quit and [fill] returns [-1], although the form
    may be filled in. *)
Theorem submit_failure_returns_minus_one (E : env) (self self1 : GForm)
    (a : fill_args) (u : string) (mp : Mappings) (s1 : frame)
    (start : float) :
  only_Exceptions E ->
  passes_assertions self a = Some (self1, u) ->
  mappings self1 = Some mp ->
  open_form E self1 a u at_entry = (s1, Returns (Some start)) ->
  submit a = true ->
  (review_before_submit a && interactive a = true -> confirms_review E) ->
  (forall h, exists e,
     E h (WaitClickable (WAIT self1) submit_xpath) = Raises e) ->
  returned (fill E self a) = Returns not_completed
  /\ exists tr e,
       calls (fill E self a)
       = (trace s1 ++ tr
            ++ [WaitClickable (WAIT self1) submit_xpath;
                Log ERROR ("An error occurred: " ++ str_exn e);
                Quit])%list
       /\ waits tr = (keys (text mp) ++ radio mp ++ checkbox mp)%list.
Proof.
  intros Hex Hp Hmp Hopen Hs Hrev Hno. rewrite (fill_passes E _ _ _ _ Hp).
  pose proof (open_form_keeps_t E self1 a u at_entry) as Ht.
  rewrite Hopen in Ht. simpl in Ht.
  destruct (fill_fields_locates E self1 Hex mp s1) as (tr1 & Hf & Hw1).
  destruct (handle_submit_fails E self1 a
              {| trace := (trace s1 ++ tr1)%list; t := t s1 |} Hs Hrev Hno)
    as (tr2 & e & Hh & Hw2 & He).
  unfold guarded, try_except, try_body.
  rewrite (bind_returns _ _ _ _ _ Hopen).
  unfold fill_and_submit, read_mappings. rewrite Hmp.
  rewrite (bind_returns (ret mp) _ s1 s1 mp eq_refl).
  rewrite (bind_returns _ _ _ _ _ Hf).
  rewrite (bind_raises _ _ _ _ _ Hh).
  rewrite (Hex _ _ _ He). cbn. rewrite Ht.
  split; [reflexivity|].
  exists (tr1 ++ tr2)%list, e. split.
  - now rewrite <- !app_assoc.
  - now rewrite waits_app, Hw1, Hw2, app_nil_r.
Qed.

Lemma submit_failure_returns_minus_one_witness :
  let E := Examples.world (Returns tt) EmptyString EmptyString [submit_xpath] in
  let self := Compile.self_after
                (create_mappings init Script.form_data false) in
  returned (fill E self Script.args) = Returns not_completed
  /\ exists tr e,
       calls (fill E self Script.args)
       = ([Get Script.form_url; Sleep 0.5%float; Time] ++ tr
            ++ [WaitClickable 5 submit_xpath;
                Log ERROR ("An error occurred: " ++ str_exn e);
                Quit])%list
       /\ waits tr
          = (keys (text Samples.script_mappings)
               ++ radio Samples.script_mappings
               ++ checkbox Samples.script_mappings)%list.
Proof.
  intros E self.
  refine (submit_failure_returns_minus_one E self _ Script.args
            Script.form_url Samples.script_mappings
            {| trace := [Get Script.form_url; Sleep 0.5%float; Time];
               t := not_completed |}
            (PrimFloat.of_uint63 (Uint63.of_nat 2))
            (world_only_Exceptions _ _ _)
            eq_refl eq_refl eq_refl eq_refl
            (fun H : false && false = true =>
               False_ind _ (Bool.diff_false_true H))
            _).
  intros h. eexists. reflexivity.
Defined.

(** X14.  When the operator answers [q] at the review prompt, the submit
    button is not waited for, and [fill] returns as it does for a form that
    was submitted: with a clock that answers, the value returned is the
    reading [now] that the clock gives right after the review prompt, minus
    [start].  The calls after the loops are the review prompt, the clock,
    the closing prompt and [driver.quit()], with an error logged in between
    when the closing prompt raises. *)
Theorem cancelled_review_returns_elapsed_time (E : env) (self self1 : GForm)
    (a : fill_args) (u : string) (mp : Mappings) (s1 : frame)
    (start : float) :
  only_Exceptions E ->
  passes_assertions self a = Some (self1, u) ->
  mappings self1 = Some mp ->
  open_form E self1 a u at_entry = (s1, Returns (Some start)) ->
  submit a = true -> review_before_submit a = true -> interactive a = true ->
  (forall h, E h (Input review_prompt) = Returns "q") ->
  (forall h, exists now, E h Time = Returns now) ->
  exists tr now rest,
    waits tr = (keys (text mp) ++ radio mp ++ checkbox mp)%list
    /\ E (trace s1 ++ tr ++ [Input review_prompt])%list Time = Returns now
    /\ returned (fill E self a) = Returns (Float (PrimFloat.sub now start))
    /\ calls (fill E self a)
       = (trace s1 ++ tr
            ++ Input review_prompt :: Time :: Input close_prompt :: rest)%list
    /\ (rest = [Quit]
        \/ exists e,
             rest = [Log ERROR ("An error occurred: " ++ str_exn e); Quit]).
Proof.
  intros Hex Hp Hmp Hopen Hs Hr Hi Hq Hclock.
  rewrite (fill_passes E _ _ _ _ Hp).
  destruct (fill_fields_locates E self1 Hex mp s1) as (tr1 & Hf & Hw1).
  pose proof (handle_submit_cancelled E self1 a
                {| trace := (trace s1 ++ tr1)%list; t := t s1 |}
                Hs Hr Hi Hq) as Hh.
  unfold guarded, try_except, try_body.
  rewrite (bind_returns _ _ _ _ _ Hopen).
  unfold fill_and_submit, read_mappings. rewrite Hmp.
  rewrite (bind_returns (ret mp) _ s1 s1 mp eq_refl).
  rewrite (bind_returns _ _ _ _ _ Hf).
  rewrite (bind_returns _ _ _ _ _ Hh).
  cbn [trace t]. rewrite Hi.
  unfold bind, perform, set_t, ret, tell, record. cbn [trace t].
  destruct (Hclock ((trace s1 ++ tr1) ++ [Input review_prompt])%list)
    as [now Hnow].
  rewrite Hnow. exists tr1, now.
  rewrite <- app_assoc in Hnow.
  destruct (E _ (Input close_prompt)) as [answer|e] eqn:Hclose.
  - cbn. exists [Quit].
    split; [exact Hw1|]. split; [exact Hnow|]. split; [reflexivity|].
    split; [|now left]. rewrite <- !app_assoc. reflexivity.
  - rewrite (Hex _ _ _ Hclose). cbn.
    exists [Log ERROR ("An error occurred: " ++ str_exn e); Quit].
    split; [exact Hw1|]. split; [exact Hnow|]. split; [reflexivity|].
    split; [|right; now exists e]. rewrite <- !app_assoc. reflexivity.
Qed.

Lemma cancelled_review_returns_elapsed_time_witness :
  let E := Examples.world (Returns tt) EmptyString "q" [] in
  let self := Compile.self_after
                (create_mappings init Script.form_data false) in
  let a := {| arg_url := Some Script.form_url; submit := true;
              interactive := true; review_before_submit := true;
              clear := false |} in
  let opened := [Get Script.form_url; Input start_prompt; Time] in
  exists tr now rest,
    waits tr
    = (keys (text Samples.script_mappings)
         ++ radio Samples.script_mappings
         ++ checkbox Samples.script_mappings)%list
    /\ E (opened ++ tr ++ [Input review_prompt])%list Time = Returns now
    /\ returned (fill E self a)
       = Returns (Float (PrimFloat.sub now
                           (PrimFloat.of_uint63 (Uint63.of_nat 2))))
    /\ calls (fill E self a)
       = (opened ++ tr
            ++ Input review_prompt :: Time :: Input close_prompt :: rest)%list
    /\ (rest = [Quit]
        \/ exists e,
             rest = [Log ERROR ("An error occurred: " ++ str_exn e); Quit]).
Proof.
  intros E self a opened.
  refine (cancelled_review_returns_elapsed_time E self _ a
            Script.form_url Samples.script_mappings
            {| trace := opened; t := not_completed |}
            (PrimFloat.of_uint63 (Uint63.of_nat 2))
            (world_only_Exceptions _ _ _)
            eq_refl eq_refl eq_refl eq_refl eq_refl eq_refl _ _).
  - intros h. reflexivity.
  - intros h. eexists. reflexivity.
Defined.

(** ** What [fill] never does *)

(** The fields of a [try] block, loop by loop. *)
Ltac adds_only_fields side :=
  repeat first
    [ apply adds_only_for_each; intros ?
    | match goal with
      | |- adds_only _ (fill_text_field _ _ ?i) =>
          destruct i; unfold fill_text_field
      | |- adds_only _ (fill_radio_field _ _ _) => unfold fill_radio_field
      | |- adds_only _ (fill_checkbox_field _ _ _) =>
          unfold fill_checkbox_field
      end
    | progress adds_only_with side ].

Lemma try_body_fits_mode E self a u :
  adds_only (fits_mode (interactive a))
    (try_except (try_body E self a u)
       (fun e => tell (Log ERROR ("An error occurred: " ++ str_exn e)))).
Proof.
  unfold try_body, open_form, fill_and_submit, read_mappings, fill_fields,
    handle_submit.
  destruct a as [au sub int rev clr]. cbn [interactive submit clear
    review_before_submit].
  destruct int, rev; cbn [andb negb]; adds_only_fields reflexivity.
Qed.

(** X15.  A [fill] that is not interactive never calls [input], and an
    interactive one never pauses with [time.sleep]: in every run, with any
    arguments and whatever the world answers. *)
Theorem calls_fit_the_mode (E : env) (self : GForm) (a : fill_args) :
  forallb (fits_mode (interactive a)) (calls (fill E self a)) = true.
Proof.
  destruct (passes_assertions self a) as [[self1 u]|] eqn:H.
  - rewrite (fill_passes E _ _ _ _ H). unfold guarded.
    destruct (try_body_fits_mode E self1 a u at_entry) as (tr & Htr & Hall).
    destruct (try_except _ _ at_entry) as [s1 r1]. simpl in *.
    rewrite Htr, forallb_app, Hall. reflexivity.
  - destruct (fill_fails_assertion E _ _ H) as (e & _ & _ & [Hc|[msg Hc]]);
      rewrite Hc; reflexivity.
Qed.

Section Fields.

Variable E : env.
Variable self : GForm.

(** X17.  A choice is clicked only to set it.  In the attempt of a radio
    entry, the one click there can be is on the element that the wait
    returned, after [is_selected()] answered false; in the attempt of a
    checkbox entry it is on the label that the wait returned, after the
    ['aria-checked'] of the element named by the label's ['for'] read
    ['false'].  A selected radio button and a checked box are left alone. *)
Theorem choice_is_clicked_only_to_set_it (input_locator : string) (s : frame) :
  (exists tr,
     trace (fst (fill_radio_field E self input_locator s))
     = (trace s ++ tr)%list
     /\ forall el, In (Click el) tr ->
          E (trace s) (WaitClickable (WAIT self) input_locator) = Returns el
          /\ E (trace s ++ [WaitClickable (WAIT self) input_locator])%list
               (IsSelected el) = Returns false)
  /\ (exists tr,
        trace (fst (fill_checkbox_field E self input_locator s))
        = (trace s ++ tr)%list
        /\ forall el, In (Click el) tr ->
             E (trace s) (WaitClickable (WAIT self) input_locator)
             = Returns el
             /\ exists fr box,
                  E (trace s ++ [WaitClickable (WAIT self) input_locator])%list
                    (GetAttribute el "for") = Returns fr
                  /\ E (trace s ++ [WaitClickable (WAIT self) input_locator;
                                    GetAttribute el "for"])%list
                       (FindElementById fr) = Returns box
                  /\ E (trace s ++ [WaitClickable (WAIT self) input_locator;
                                    GetAttribute el "for";
                                    FindElementById fr])%list
                       (GetAttribute box "aria-checked")
                     = Returns (Some "false")).
Proof.
  split.
  - unfold fill_radio_field, try_except, bind, perform, tell, ret, record,
      could_not_fill. cbn [trace t].
    destruct (E (trace s) (WaitClickable (WAIT self) input_locator))
      as [el|e] eqn:H1.
    + destruct (E _ (IsSelected el)) as [[|]|e] eqn:H2.
      * eexists. split; [cbn; rewrite <- ?app_assoc; reflexivity|].
        intros el' [Hc|[Hc|[]]]; discriminate.
      * destruct (E _ (Click el)) as [[]|e] eqn:H3.
        { eexists. split; [cbn; rewrite <- ?app_assoc; reflexivity|].
          intros el' [Hc|[Hc|[Hc|[]]]]; try discriminate.
          injection Hc as <-. auto. }
        { destruct (is_Exception e);
            (eexists; split; [cbn; rewrite <- ?app_assoc; reflexivity|]);
            intros el' Hin; simpl in Hin;
            repeat (destruct Hin as [Hc|Hin]; try discriminate;
                    try (injection Hc as <-; auto));
            destruct Hin. }
      * destruct (is_Exception e);
          (eexists; split; [cbn; rewrite <- ?app_assoc; reflexivity|]);
          intros el' Hin; simpl in Hin;
          repeat (destruct Hin as [Hc|Hin]; try discriminate);
          destruct Hin.
    + destruct (is_Exception e);
        (eexists; split; [cbn; rewrite <- ?app_assoc; reflexivity|]);
        intros el' Hin; simpl in Hin;
        repeat (destruct Hin as [Hc|Hin]; try discriminate);
        destruct Hin.
  - unfold fill_checkbox_field, try_except, bind, perform, tell, ret, record,
      could_not_fill. cbn [trace t].
    destruct (E (trace s) (WaitClickable (WAIT self) input_locator))
      as [el|e] eqn:H1.
    2:{ destruct (is_Exception e);
          (eexists; split; [cbn; rewrite <- ?app_assoc; reflexivity|]);
          intros el' Hin; simpl in Hin;
          repeat (destruct Hin as [Hc|Hin]; try discriminate);
          destruct Hin. }
    destruct (E _ (GetAttribute el "for")) as [fr|e] eqn:H2.
    2:{ destruct (is_Exception e);
          (eexists; split; [cbn; rewrite <- ?app_assoc; reflexivity|]);
          intros el' Hin; simpl in Hin;
          repeat (destruct Hin as [Hc|Hin]; try discriminate);
          destruct Hin. }
    destruct (E _ (FindElementById fr)) as [box|e] eqn:H3.
    2:{ destruct (is_Exception e);
          (eexists; split; [cbn; rewrite <- ?app_assoc; reflexivity|]);
          intros el' Hin; simpl in Hin;
          repeat (destruct Hin as [Hc|Hin]; try discriminate);
          destruct Hin. }
    destruct (E _ (GetAttribute box "aria-checked")) as [checked|e] eqn:H4.
    2:{ destruct (is_Exception e);
          (eexists; split; [cbn; rewrite <- ?app_assoc; reflexivity|]);
          intros el' Hin; simpl in Hin;
          repeat (destruct Hin as [Hc|Hin]; try discriminate);
          destruct Hin. }
    destruct (attr_is checked "false") eqn:A.
    2:{ eexists. split; [cbn; rewrite <- ?app_assoc; reflexivity|].
        intros el' Hin; simpl in Hin;
          repeat (destruct Hin as [Hc|Hin]; try discriminate);
          destruct Hin. }
    assert (Hfalse : checked = Some "false").
    { destruct checked as [c|]; [|discriminate].
      apply String.eqb_eq in A. now subst. }
    subst checked.
    rewrite <- ?app_assoc in H3. rewrite <- ?app_assoc in H4.
    cbn [app] in H3, H4.
    destruct (E _ (Click el)) as [[]|e] eqn:H5.
    + eexists. split; [cbn; rewrite <- ?app_assoc; reflexivity|].
      intros el' Hin; simpl in Hin.
      repeat (destruct Hin as [Hc|Hin]; try discriminate).
      * injection Hc as <-. eauto 6.
      * destruct Hin.
    + destruct (is_Exception e);
        (eexists; split; [cbn; rewrite <- ?app_assoc; reflexivity|]);
        intros el' Hin; simpl in Hin;
        repeat (destruct Hin as [Hc|Hin]; try discriminate);
        try (injection Hc as <-; eauto 6); try destruct Hin.
Qed.

End Fields.

Section Within.

Variable E : env.
Variable self : GForm.
Variable a : fill_args.

Lemma adds_only_bind_ret (P : call -> bool) {A B} (v : A) (k : A -> M B) :
  adds_only P (k v) -> adds_only P (bind (ret v) k).
Proof. intros H s. exact (H s). Qed.

Lemma adds_only_bind_raise (P : call -> bool) {A B} e (k : A -> M B) :
  adds_only P (bind (raise e) k).
Proof. intros s. exists []. simpl. now rewrite app_nil_r. Qed.

Ltac known_wait :=
  first [ reflexivity
        | unfold waits_within; rewrite Z.eqb_refl;
          apply existsb_eqb_in; rewrite ?in_app_iff; simpl; auto 10 ].

Lemma try_body_types_expected_values u :
  adds_only
    (types_within match mappings self with
                  | Some mp => map snd (text mp)
                  | None => []
                  end)
    (try_except (try_body E self a u)
       (fun e => tell (Log ERROR ("An error occurred: " ++ str_exn e)))).
Proof.
  unfold try_body, fill_and_submit, read_mappings, fill_fields.
  apply adds_only_try_except; [|intros e; now apply adds_only_tell].
  apply adds_only_bind.
  { unfold open_form. adds_only_with reflexivity. }
  intros [start|]; [|apply adds_only_ret].
  destruct (mappings self) as [mp|]; [|apply adds_only_bind_raise].
  apply adds_only_bind_ret. unfold handle_submit.
  apply adds_only_bind; [|intros _; adds_only_fields reflexivity].
  apply adds_only_bind; [|intros _; adds_only_fields reflexivity].
  apply adds_only_for_each_in. intros [input_locator value] Hin.
  unfold fill_text_field.
  adds_only_with
    ltac:(first [ reflexivity
                | cbn; apply existsb_eqb_in; apply (in_map snd _ _ Hin) ]).
Qed.

Lemma try_body_waits_for_known_xpaths u :
  adds_only (waits_within (WAIT self) (known_xpaths a (mappings self)))
    (try_except (try_body E self a u)
       (fun e => tell (Log ERROR ("An error occurred: " ++ str_exn e)))).
Proof.
  unfold try_body, fill_and_submit, read_mappings, fill_fields, known_xpaths.
  apply adds_only_try_except; [|intros e; now apply adds_only_tell].
  apply adds_only_bind.
  { unfold open_form. destruct (clear a); adds_only_with known_wait. }
  intros [start|]; [|apply adds_only_ret].
  destruct (mappings self) as [mp|]; [|apply adds_only_bind_raise].
  apply adds_only_bind_ret.
  apply adds_only_bind; [|intros _; apply adds_only_bind].
  - apply adds_only_bind; [|intros _; apply adds_only_bind].
    + apply adds_only_for_each_in. intros [input_locator value] Hin.
      apply (in_map fst) in Hin. unfold fill_text_field.
      adds_only_with known_wait.
    + apply adds_only_for_each_in. intros input_locator Hin.
      unfold fill_radio_field. adds_only_with known_wait.
    + intros _. apply adds_only_for_each_in. intros input_locator Hin.
      unfold fill_checkbox_field. adds_only_with known_wait.
  - unfold handle_submit. destruct (submit a); adds_only_with known_wait.
  - intros ?. adds_only_with reflexivity.
Qed.

End Within.

(** X18.  Whatever [fill] types into the form is an expected value: in
    every run, the text of each [send_keys] is the value of an entry of the
    text mapping (and nothing is typed on an object without mappings). *)
Theorem typed_values_are_expected (E : env) (self : GForm) (a : fill_args) :
  forallb
    (types_within match mappings self with
                  | Some mp => map snd (text mp)
                  | None => []
                  end)
    (calls (fill E self a)) = true.
Proof.
  destruct (passes_assertions self a) as [[self1 u]|] eqn:H.
  - rewrite (fill_passes E _ _ _ _ H). unfold guarded.
    destruct (passes_assertions_keeps _ _ _ _ H) as (Hm & _).
    rewrite <- Hm.
    destruct (try_body_types_expected_values E self1 a u at_entry)
      as (tr & Htr & Hall).
    destruct (try_except _ _ at_entry) as [s1 r1]. simpl in *.
    rewrite Htr, forallb_app, Hall. reflexivity.
  - destruct (fill_fails_assertion E _ _ H) as (e & _ & _ & [Hc|[msg Hc]]);
      rewrite Hc; reflexivity.
Qed.

(** X19.  Every wait of [fill] uses the one timeout [self.WAIT] and is for
    an X-path it was given: a key of the text mapping, an entry of the radio
    or checkbox mapping, the clear button when [clear] is set, the submit
    button when [submit] is set.  In every run, whatever the world
    answers. *)
Theorem waits_are_for_known_xpaths (E : env) (self : GForm) (a : fill_args) :
  forallb (waits_within (WAIT self) (known_xpaths a (mappings self)))
    (calls (fill E self a)) = true.
Proof.
  destruct (passes_assertions self a) as [[self1 u]|] eqn:H.
  - rewrite (fill_passes E _ _ _ _ H). unfold guarded.
    destruct (passes_assertions_keeps _ _ _ _ H) as (Hm & Hw & _).
    rewrite <- Hm, <- Hw.
    destruct (try_body_waits_for_known_xpaths E self1 a u at_entry)
      as (tr & Htr & Hall).
    destruct (try_except _ _ at_entry) as [s1 r1]. simpl in *.
    rewrite Htr, forallb_app, Hall. reflexivity.
  - destruct (fill_fails_assertion E _ _ H) as (e & _ & _ & [Hc|[msg Hc]]);
      rewrite Hc; reflexivity.
Qed.

(* ========================================================================= *)
(** * The script *)

(** What [create_mappings] does with the form data of the script. *)
Lemma script_compiles :
  create_mappings init Script.form_data false
  = {| Compile.self_after :=
         {| mappings := Some Samples.script_mappings; url := Some None;
            WAIT := 5 |};
       rawdata_after :=
         with_text Script.form_data
           (map (fun f => (fst f, default_textarea false (snd f)))
              (items (raw_text Script.form_data)));
       result := Returns Samples.script_mappings |}.
Proof. reflexivity. Qed.

(** X21.  A run of [main.py].  When Chrome does not start, the exception of
    the constructor ends the script: nothing is compiled and [fill] is not
    called.  When it starts, the script does not raise, whatever the browser
    and the page do: its form data compiles, its url passes the assertions,
    so that [fill] returns a value [v]; the first call of [fill] is the
    navigation to the url of the script and the last one is the only
    [driver.quit()].  The time is logged with that [v], unless [v] is
    [-1]. *)
Theorem script_run (two_decimals : num -> string) (chrome : outcome unit)
    (E : env) :
  match chrome with
  | Raises e => Script.main two_decimals chrome E = Raises e
  | Returns _ =>
      exists v tr,
        returned (fill E (Compile.self_after
                            (create_mappings init Script.form_data false))
                    Script.args)
        = Returns v
        /\ Script.main two_decimals chrome E
           = Returns
               {| Script.session :=
                    (Get "https://forms.gle/z6wBJuZgUuUfbvzV7"
                       :: tr ++ [Quit])%list;
                  Script.info :=
                    let line := "Time taken: " ++ two_decimals v
                                  ++ " seconds" in
                    match v with
                    | Int z => if Z.eqb z (-1) then None else Some line
                    | Float f =>
                        if PrimFloat.eqb f (-1)%float then None else Some line
                    end |}
        /\ quits tr = 0
  end.
Proof.
  destruct chrome as [[]|e]; [|reflexivity].
  unfold Script.main, Script.construct.
  rewrite script_compiles. cbn [result Compile.self_after].
  set (self := {| mappings := Some Samples.script_mappings;
                  url := Some None; WAIT := 5 |}).
  set (self1 := {| mappings := Some Samples.script_mappings;
                   url := Some (Some Script.form_url); WAIT := 5 |}).
  assert (Hp : passes_assertions self Script.args
               = Some (self1, Script.form_url)) by reflexivity.
  rewrite (fill_passes E _ _ _ _ Hp).
  destruct (guarded_quits_last E self1 Script.args Script.form_url)
    as (tr1 & Htr1 & Hq & Hr).
  destruct (guarded_starts_with_get E self1 Script.args Script.form_url)
    as (tr2 & Htr2).
  destruct (guarded E self1 Script.args Script.form_url at_entry) as [s r].
  cbn [fst snd returned calls] in *. subst r.
  rewrite Htr1 in Htr2.
  destruct tr1 as [|c tr1]; [discriminate|].
  injection Htr2 as -> _.
  exists (t s), tr1. rewrite Htr1. split; [reflexivity|].
  split; [|exact Hq].
  unfold Script.is_not_minus_one.
  destruct (t s) as [z|f]; [destruct (Z.eqb z (-1))|destruct (PrimFloat.eqb f _)];
    reflexivity.
Qed.
